(** * Pneuma Games bot: challenge / payment reconciliation core

    A shallow embedding of [src/index.ts]: the in-memory stores
    ([playerStats], [pendingChallenges], [pendingPayments],
    [confirmedPayments], the two process-wide aggregates), the helpers
    [getOrCreatePlayerStats], [updatePlayerStats] and [sendPrize], and the
    handlers that mutate the stores: the [/challenge] slash command, the
    interaction-response handler (transaction and form branches), the
    [/api/request-payment] and [/api/score] routes, and the callbacks
    registered with [setTimeout]; and of what reads them: the
    [/api/check-payment] and [/api/check-challenge] routes and the
    [/leaderboard] command.

    Modelling conventions.
    - Every handler run is one atomic transition [State -> State * trace];
      the interleaving of two handlers suspended at an [await] is not
      represented.
    - What the outside world answers (the receipt of a transaction, the
      result of a disbursement, the clock) is an argument of the event.
    - Calls that leave the process ([sendMessage],
      [sendInteractionRequest], [sendPrize]) are recorded in the trace and
      are assumed not to throw.
    - Message texts are abstracted to one constructor per template, carrying
      the interpolated values. *)

From Stdlib Require Import ZArith QArith String Ascii List DecimalString Lia.
From stdpp Require Import gmap strings list sorting.

Local Open Scope Z_scope.
Local Open Scope string_scope.

(** ** JavaScript values used by the handlers *)

Module Js.

(** A JS [number]. Finite doubles are represented by the rational they
    denote; the rounding of [+] on doubles is not represented. *)
Inductive number :=
| NaN
| Infinity (negative : bool)
| Finite (q : Q).

Definition of_Z (z : Z) : number := Finite (inject_Z z).

Definition Qlt_bool (x y : Q) : bool :=
  match Qcompare x y with Lt => true | _ => false end.

(** [a < b] on numbers: every comparison with [NaN] is false. *)
Definition lt (a b : number) : bool :=
  match a, b with
  | NaN, _ | _, NaN => false
  | Finite x, Finite y => Qlt_bool x y
  | Infinity s, Infinity t => s && negb t
  | Infinity s, Finite _ => s
  | Finite _, Infinity t => negb t
  end.

(** [a > b]. *)
Definition gt (a b : number) : bool := lt b a.

(** [a + b]. *)
Definition add (a b : number) : number :=
  match a, b with
  | NaN, _ | _, NaN => NaN
  | Finite x, Finite y => Finite (Qred (x + y))
  | Infinity s, Infinity t => if Bool.eqb s t then Infinity s else NaN
  | Infinity s, Finite _ => Infinity s
  | Finite _, Infinity t => Infinity t
  end.

(** The number is an integer. *)
Definition is_integer (a : number) : Prop :=
  match a with
  | Finite q => exists z : Z, Qeq q (inject_Z z)
  | _ => False
  end.

(** Truthiness of a value that is either absent or a string: [undefined]
    and the empty string are falsy. [present o] is the string when [o] is
    truthy. *)
Definition present (o : option string) : option string :=
  match o with
  | Some s => if String.eqb s "" then None else Some s
  | None => None
  end.

(** [o || d] for such a value. *)
Definition or_default (o : option string) (d : string) : string :=
  match o with
  | Some s => if String.eqb s "" then d else s
  | None => d
  end.

(** [hay.includes(needle)]. *)
Fixpoint includes (needle hay : string) : bool :=
  String.prefix needle hay
  || match hay with
     | EmptyString => false
     | String _ rest => includes needle rest
     end.

(** [s.startsWith(p)]. *)
Definition startsWith (p s : string) : bool := String.prefix p s.

Fixpoint skip (n : nat) (s : string) : string :=
  match n, s with
  | O, _ => s
  | S n', String _ rest => skip n' rest
  | S _, EmptyString => EmptyString
  end.

(** [s.replace(pat, by)] with a string pattern: the first occurrence only. *)
Fixpoint replace (pat by_ s : string) : string :=
  if String.prefix pat s then by_ ++ skip (String.length pat) s
  else match s with
       | EmptyString => EmptyString
       | String c rest => String c (replace pat by_ rest)
       end.

(** [`${n}`] for an integer. *)
Definition decimal (n : Z) : string := NilZero.string_of_int (Z.to_int n).

End Js.

(** ** Constants *)

(** [parseUnits('0.1', 6)] and [parseUnits('0.2', 6)]. *)
Definition ENTRY_FEE : Z := 100000.
Definition CHALLENGE_FEE : Z := 200000.

(** ** Data storage *)

Record PlayerStats := mkPlayerStats {
  displayName : string;
  gamesPlayed : Z;
  bestScore : Js.number;
  totalScore : Js.number;
  challengesWon : Z;
  challengesLost : Z;
  earnings : Z;
}.

Record PendingChallenge := mkPendingChallenge {
  id : string;
  challengerId : string;
  challengerName : string;
  targetId : string;
  targetName : string;
  wager : Z;
  challengerPaid : bool;
  targetPaid : bool;
  challengerScore : option Js.number;
  targetScore : option Js.number;
  createdAt : Z;
  channelId : string;
  challengerTxHash : option string;
  targetTxHash : option string;
}.

Inductive PaymentType := play | challenge_initiator | challenge_acceptor.

Inductive PaymentStatus := pending | confirmed | failed.

Record PendingPayment := mkPendingPayment {
  userId : string;
  type : PaymentType;
  challengeId : option string;
  paymentChannelId : string;
  status : PaymentStatus;
}.

(** A callback registered with [setTimeout] and not yet run. *)
Inductive Timer :=
| DeletePayment (paymentId : string)
| DeletePaymentAndConfirmed (paymentId : string).

Record State := mkState {
  playerStats : gmap string PlayerStats;
  pendingChallenges : gmap string PendingChallenge;
  pendingPayments : gmap string PendingPayment;
  confirmedPayments : gset string;
  totalGamesPlayed : Z;
  jackpotPool : Z;
  timers : list Timer;
}.

Definition initial : State :=
  {| playerStats := ∅; pendingChallenges := ∅; pendingPayments := ∅;
     confirmedPayments := ∅; totalGamesPlayed := 0; jackpotPool := 0;
     timers := [] |}.

Definition with_playerStats (f : gmap string PlayerStats -> gmap string PlayerStats)
    (s : State) : State :=
  {| playerStats := f (playerStats s); pendingChallenges := pendingChallenges s;
     pendingPayments := pendingPayments s; confirmedPayments := confirmedPayments s;
     totalGamesPlayed := totalGamesPlayed s; jackpotPool := jackpotPool s;
     timers := timers s |}.

Definition with_pendingChallenges
    (f : gmap string PendingChallenge -> gmap string PendingChallenge)
    (s : State) : State :=
  {| playerStats := playerStats s; pendingChallenges := f (pendingChallenges s);
     pendingPayments := pendingPayments s; confirmedPayments := confirmedPayments s;
     totalGamesPlayed := totalGamesPlayed s; jackpotPool := jackpotPool s;
     timers := timers s |}.

Definition with_pendingPayments
    (f : gmap string PendingPayment -> gmap string PendingPayment)
    (s : State) : State :=
  {| playerStats := playerStats s; pendingChallenges := pendingChallenges s;
     pendingPayments := f (pendingPayments s); confirmedPayments := confirmedPayments s;
     totalGamesPlayed := totalGamesPlayed s; jackpotPool := jackpotPool s;
     timers := timers s |}.

Definition with_confirmedPayments (f : gset string -> gset string) (s : State) : State :=
  {| playerStats := playerStats s; pendingChallenges := pendingChallenges s;
     pendingPayments := pendingPayments s; confirmedPayments := f (confirmedPayments s);
     totalGamesPlayed := totalGamesPlayed s; jackpotPool := jackpotPool s;
     timers := timers s |}.

Definition with_totalGamesPlayed (f : Z -> Z) (s : State) : State :=
  {| playerStats := playerStats s; pendingChallenges := pendingChallenges s;
     pendingPayments := pendingPayments s; confirmedPayments := confirmedPayments s;
     totalGamesPlayed := f (totalGamesPlayed s); jackpotPool := jackpotPool s;
     timers := timers s |}.

Definition with_jackpotPool (f : Z -> Z) (s : State) : State :=
  {| playerStats := playerStats s; pendingChallenges := pendingChallenges s;
     pendingPayments := pendingPayments s; confirmedPayments := confirmedPayments s;
     totalGamesPlayed := totalGamesPlayed s; jackpotPool := f (jackpotPool s);
     timers := timers s |}.

Definition with_timers (f : list Timer -> list Timer) (s : State) : State :=
  {| playerStats := playerStats s; pendingChallenges := pendingChallenges s;
     pendingPayments := pendingPayments s; confirmedPayments := confirmedPayments s;
     totalGamesPlayed := totalGamesPlayed s; jackpotPool := jackpotPool s;
     timers := f (timers s) |}.

(** ** The outside world *)

Record Mention := mkMention { mentionUserId : string; mentionDisplayName : string }.

(** One entry of [form.components]: its [id] and whether
    [component.case === 'button']. *)
Record Component := mkComponent { componentId : string; isButton : bool }.

(** What [waitForTransactionReceipt] does for a payment: it returns a
    receipt whose status is or is not ['success'], or it throws an error
    with the given message. *)
Inductive Verification :=
| Receipt (success : bool)
| VerifyThrows (message : string).

(** What happens inside one call of [sendPrize]. *)
Inductive PrizeOutcome :=
| AccountLookupThrows
| NoSmartAccount
| ExecuteThrows
| ReceiptThrows (hash : string)
| ReceiptStatus (hash : string) (success : bool).

(** The body of a [/api/score] request after [c.req.json()]. [userId],
    [displayName] and [challengeId] are absent or strings; [score] and
    [timestamp] are [None] when [typeof] is not ['number']. *)
Record ScoreBody := mkScoreBody {
  bodyUserId : option string;
  bodyScore : option Js.number;
  bodyTimestamp : option Js.number;
  bodyDisplayName : option string;
  bodyChallengeId : option string;
}.

Inductive Message :=
| MsgMentionAPlayer
| MsgCannotChallengeYourself
| MsgTransactionFailedOnChain
| MsgSoloPaymentConfirmed (txHash : string)
| MsgChallenged (target challenger txHash : string)
| MsgChallengeAccepted (challenger target : string) (challengerTx targetTx : option string)
| MsgPaymentReceivedSlowVerification
| MsgFailedToVerify
| MsgTransactionNotCompleted
| MsgDeclined (target challenger : string) (refundTxHash : option string)
| MsgChallengeComplete (winner loser : string) (winnerScore loserScore : option Js.number)
    (winnerPrize : Z) (txHash : option string).

Inductive InteractionRequest :=
| TransactionRequest (requestId : string) (amount : Z) (recipient : string)
| FormRequest (requestId : string) (buttons : list string) (recipient : string).

Inductive Effect :=
| SendMessage (channel : string) (m : Message)
| SendInteractionRequest (channel : string) (r : InteractionRequest)
| SendPrize (recipientUserId : string) (amount : Z) (o : PrizeOutcome).

Inductive Response :=
| NoResponse
| Json400 (error : string)
| JsonPaymentRequested (paymentId : string)
| JsonChallengeComplete (score : Js.number) (isWinner : bool) (winnerId loserId : string)
    (winnerScore loserScore : option Js.number) (prize : Z)
| JsonWaitingForOpponent (score : Js.number)
| JsonSolo (score : Js.number) (jackpot : Z).

Inductive Event :=
| SlashChallenge (user channel : string) (mentions : list Mention) (now : Z)
| TransactionResponse (requestId : string) (txHash : option string) (v : Verification)
| FormResponse (user requestId : string) (components : list Component)
    (prizes : nat -> PrizeOutcome)
| RequestPayment (user channel : option string) (now : Z)
| ScoreSubmission (body : ScoreBody) (now : Z) (prize : PrizeOutcome)
| TimerFires (k : nat).

Definition Outcome : Type := State * list Effect * Response.

(** ** Helpers *)

(** The record [getOrCreatePlayerStats] files for an unknown player. *)
Definition newPlayerStats (name : string) : PlayerStats :=
  {| displayName := name; gamesPlayed := 0; bestScore := Js.of_Z 0;
     totalScore := Js.of_Z 0; challengesWon := 0; challengesLost := 0;
     earnings := 0 |}.

Definition getOrCreatePlayerStats (uid name : string) (s : State) : State * PlayerStats :=
  match playerStats s !! uid with
  | Some st => (s, st)
  | None => (with_playerStats <[uid := newPlayerStats name]> s, newPlayerStats name)
  end.

(** The three assignments of [updatePlayerStats] on the record. *)
Definition recordGame (score : Js.number) (stats : PlayerStats) : PlayerStats :=
  let played := {| displayName := displayName stats;
                   gamesPlayed := gamesPlayed stats + 1;
                   bestScore := bestScore stats;
                   totalScore := Js.add (totalScore stats) score;
                   challengesWon := challengesWon stats;
                   challengesLost := challengesLost stats;
                   earnings := earnings stats |} in
  if Js.gt score (bestScore played)
  then {| displayName := displayName played;
          gamesPlayed := gamesPlayed played;
          bestScore := score;
          totalScore := totalScore played;
          challengesWon := challengesWon played;
          challengesLost := challengesLost played;
          earnings := earnings played |}
  else played.

Definition updatePlayerStats (uid name : string) (score : Js.number) (s : State) : State :=
  let '(s1, stats) := getOrCreatePlayerStats uid name s in
  with_playerStats <[uid := recordGame score stats]> s1.

(** [sendPrize]: the hash when the transfer was confirmed on-chain, [null]
    on every other path. The call is recorded with its arguments. *)
Definition sendPrize (recipient : string) (amount : Z) (o : PrizeOutcome)
    : option string * list Effect :=
  (match o with
   | ReceiptStatus hash true => Some hash
   | _ => None
   end,
   [SendPrize recipient amount o]).

(** The revenue split of a settlement, as a function of the fee each side
    paid: [(totalPrize, botCut, winnerPrize)]. BigInt division truncates. *)
Definition revenueSplit (fee : Z) : Z * Z * Z :=
  let totalPrize := fee * 2 in
  let botCut := Z.quot totalPrize 100 in
  let winnerPrize := totalPrize - botCut in
  (totalPrize, botCut, winnerPrize).

Definition set_status (st : PaymentStatus) (p : PendingPayment) : PendingPayment :=
  {| userId := userId p; type := type p; challengeId := challengeId p;
     paymentChannelId := paymentChannelId p; status := st |}.

Definition set_challengerPaid (txHash : string) (c : PendingChallenge) : PendingChallenge :=
  {| id := id c; challengerId := challengerId c; challengerName := challengerName c;
     targetId := targetId c; targetName := targetName c; wager := wager c;
     challengerPaid := true; targetPaid := targetPaid c;
     challengerScore := challengerScore c; targetScore := targetScore c;
     createdAt := createdAt c; channelId := channelId c;
     challengerTxHash := Some txHash; targetTxHash := targetTxHash c |}.

Definition set_targetPaid (txHash : string) (c : PendingChallenge) : PendingChallenge :=
  {| id := id c; challengerId := challengerId c; challengerName := challengerName c;
     targetId := targetId c; targetName := targetName c; wager := wager c;
     challengerPaid := challengerPaid c; targetPaid := true;
     challengerScore := challengerScore c; targetScore := targetScore c;
     createdAt := createdAt c; channelId := channelId c;
     challengerTxHash := challengerTxHash c; targetTxHash := Some txHash |}.

Definition set_challengerScore (score : Js.number) (c : PendingChallenge) : PendingChallenge :=
  {| id := id c; challengerId := challengerId c; challengerName := challengerName c;
     targetId := targetId c; targetName := targetName c; wager := wager c;
     challengerPaid := challengerPaid c; targetPaid := targetPaid c;
     challengerScore := Some score; targetScore := targetScore c;
     createdAt := createdAt c; channelId := channelId c;
     challengerTxHash := challengerTxHash c; targetTxHash := targetTxHash c |}.

Definition set_targetScore (score : Js.number) (c : PendingChallenge) : PendingChallenge :=
  {| id := id c; challengerId := challengerId c; challengerName := challengerName c;
     targetId := targetId c; targetName := targetName c; wager := wager c;
     challengerPaid := challengerPaid c; targetPaid := targetPaid c;
     challengerScore := challengerScore c; targetScore := Some score;
     createdAt := createdAt c; channelId := channelId c;
     challengerTxHash := challengerTxHash c; targetTxHash := targetTxHash c |}.

(** [setTimeout(callback, delay)]: the callback is queued. *)
Definition setTimeout (t : Timer) (s : State) : State :=
  with_timers (fun ts => app ts [t]) s.

(** ** Handlers *)

(** [bot.onSlashCommand('challenge', ...)]. *)
Definition onSlashChallenge (user channel : string) (mentions : list Mention) (now : Z)
    (s : State) : Outcome :=
  match mentions with
  | [] => (s, [SendMessage channel MsgMentionAPlayer], NoResponse)
  | m :: _ =>
      let target := mentionUserId m in
      if String.eqb target user
      then (s, [SendMessage channel MsgCannotChallengeYourself], NoResponse)
      else
        let cid := "challenge-" ++ Js.decimal now in
        let paymentId := "challenge-init-" ++ cid in
        let s1 := with_pendingPayments
                    <[paymentId := {| userId := user; type := challenge_initiator;
                                      challengeId := Some cid; paymentChannelId := channel;
                                      status := pending |}]> s in
        let self := List.find (fun m' => String.eqb (mentionUserId m') user) mentions in
        let s2 := with_pendingChallenges
                    <[cid := {| id := cid; challengerId := user;
                                challengerName :=
                                  Js.or_default (mentionDisplayName <$> self) "Player";
                                targetId := target; targetName := mentionDisplayName m;
                                wager := CHALLENGE_FEE;
                                challengerPaid := false; targetPaid := false;
                                challengerScore := None; targetScore := None;
                                createdAt := now; channelId := channel;
                                challengerTxHash := None; targetTxHash := None |}]> s1 in
        (s2,
         [SendInteractionRequest channel (TransactionRequest paymentId CHALLENGE_FEE user)],
         NoResponse)
  end.

(** The [else] branch of [if (tx.txHash)]: failed or cancelled. *)
Definition transactionNotCompleted (requestId : string) (p : PendingPayment) (s : State)
    : Outcome :=
  (setTimeout (DeletePayment requestId)
     (with_pendingPayments <[requestId := set_status failed p]> s),
   [SendMessage (paymentChannelId p) MsgTransactionNotCompleted],
   NoResponse).

(** The receipt came back with status ['success']. *)
Definition transactionVerified (requestId txHash : string) (p : PendingPayment) (s : State)
    : Outcome :=
  match type p, Js.present (challengeId p) with
  | play, _ =>
      (setTimeout (DeletePaymentAndConfirmed requestId)
         (with_confirmedPayments (fun c => {[requestId]} ∪ c)
            (with_pendingPayments <[requestId := set_status confirmed p]> s)),
       [SendMessage (paymentChannelId p) (MsgSoloPaymentConfirmed txHash)],
       NoResponse)
  | challenge_initiator, Some cid =>
      match pendingChallenges s !! cid with
      | None => (s, [], NoResponse)
      | Some ch =>
          let ch' := set_challengerPaid txHash ch in
          (with_pendingPayments (delete requestId)
             (with_pendingChallenges <[cid := ch']> s),
           [SendMessage (channelId ch')
              (MsgChallenged (targetId ch') (challengerName ch') txHash);
            SendInteractionRequest (channelId ch')
              (FormRequest ("challenge-response-" ++ id ch') ["accept"; "decline"]
                 (targetId ch'))],
           NoResponse)
      end
  | challenge_acceptor, Some cid =>
      match pendingChallenges s !! cid with
      | None => (s, [], NoResponse)
      | Some ch =>
          let ch' := set_targetPaid txHash ch in
          (with_pendingPayments (delete requestId)
             (with_pendingChallenges <[cid := ch']> s),
           [SendMessage (channelId ch')
              (MsgChallengeAccepted (challengerId ch') (targetId ch')
                 (challengerTxHash ch') (targetTxHash ch'))],
           NoResponse)
      end
  | _, None => (s, [], NoResponse)
  end.

(** The [catch] block around the verification. *)
Definition transactionVerifyError (requestId errorMessage : string) (p : PendingPayment)
    (s : State) : Outcome :=
  if Js.includes "timeout" errorMessage || Js.includes "timed out" errorMessage
  then
    (setTimeout (DeletePaymentAndConfirmed requestId)
       (with_confirmedPayments (fun c => {[requestId]} ∪ c)
          (with_pendingPayments <[requestId := set_status confirmed p]> s)),
     [SendMessage (paymentChannelId p) MsgPaymentReceivedSlowVerification],
     NoResponse)
  else
    (setTimeout (DeletePayment requestId)
       (with_pendingPayments <[requestId := set_status failed p]> s),
     [SendMessage (paymentChannelId p) MsgFailedToVerify],
     NoResponse).

(** [bot.onInteractionResponse], case ['transaction']. *)
Definition onTransactionResponse (requestId : string) (txHash : option string)
    (v : Verification) (s : State) : Outcome :=
  match pendingPayments s !! requestId with
  | None => (s, [], NoResponse)
  | Some p =>
      match Js.present txHash with
      | Some h =>
          match v with
          | Receipt false =>
              (setTimeout (DeletePayment requestId)
                 (with_pendingPayments <[requestId := set_status failed p]> s),
               [SendMessage (paymentChannelId p) MsgTransactionFailedOnChain],
               NoResponse)
          | Receipt true => transactionVerified requestId h p s
          | VerifyThrows errorMessage => transactionVerifyError requestId errorMessage p s
          end
      | None => transactionNotCompleted requestId p s
      end
  end.

(** The body of [for (const c of form.components)]. [ch] is the challenge
    object read before the loop; [k] counts the calls of [sendPrize] made so
    far in this run. *)
Fixpoint formComponents (user cid : string) (ch : PendingChallenge)
    (prizes : nat -> PrizeOutcome) (k : nat) (components : list Component)
    (s : State) : State * list Effect :=
  match components with
  | [] => (s, [])
  | c :: rest =>
      if isButton c then
        if String.eqb (componentId c) "accept" then
          let paymentId := "challenge-accept-" ++ cid in
          let s1 := with_pendingPayments
                      <[paymentId := {| userId := user; type := challenge_acceptor;
                                        challengeId := Some cid;
                                        paymentChannelId := channelId ch;
                                        status := pending |}]> s in
          let '(s2, effs) := formComponents user cid ch prizes k rest s1 in
          (s2,
           SendInteractionRequest (channelId ch)
             (TransactionRequest paymentId CHALLENGE_FEE user) :: effs)
        else if String.eqb (componentId c) "decline" then
          let '(refundTxHash, sent) := sendPrize (challengerId ch) CHALLENGE_FEE (prizes k) in
          let s1 := with_pendingChallenges (delete cid) s in
          let '(s2, effs) := formComponents user cid ch prizes (S k) rest s1 in
          (s2,
           app sent
             (SendMessage (channelId ch)
                (MsgDeclined (targetId ch) (challengerName ch) refundTxHash) :: effs))
        else formComponents user cid ch prizes k rest s
      else formComponents user cid ch prizes k rest s
  end.

(** [bot.onInteractionResponse], case ['form']. *)
Definition onFormResponse (user requestId : string) (components : list Component)
    (prizes : nat -> PrizeOutcome) (s : State) : Outcome :=
  if Js.startsWith "challenge-response-" requestId then
    let cid := Js.replace "challenge-response-" "" requestId in
    match pendingChallenges s !! cid with
    | None => (s, [], NoResponse)
    | Some ch =>
        if String.eqb user (targetId ch) then
          let '(s', effs) := formComponents user cid ch prizes 0 components s in
          (s', effs, NoResponse)
        else (s, [], NoResponse)
    end
  else (s, [], NoResponse).

(** [app.post('/api/request-payment', ...)]. *)
Definition onRequestPayment (user channel : option string) (now : Z) (s : State) : Outcome :=
  match Js.present user, Js.present channel with
  | Some uid, Some chan =>
      let paymentId := "play-" ++ uid ++ "-" ++ Js.decimal now in
      (with_pendingPayments
         <[paymentId := {| userId := uid; type := play; challengeId := None;
                           paymentChannelId := chan; status := pending |}]> s,
       [SendInteractionRequest chan (TransactionRequest paymentId ENTRY_FEE uid)],
       JsonPaymentRequested paymentId)
  | _, _ => (s, [], Json400 "Missing userId or channelId")
  end.

Definition won (prize : Z) (st : PlayerStats) : PlayerStats :=
  {| displayName := displayName st; gamesPlayed := gamesPlayed st;
     bestScore := bestScore st; totalScore := totalScore st;
     challengesWon := challengesWon st + 1; challengesLost := challengesLost st;
     earnings := earnings st + prize |}.

Definition lost (st : PlayerStats) : PlayerStats :=
  {| displayName := displayName st; gamesPlayed := gamesPlayed st;
     bestScore := bestScore st; totalScore := totalScore st;
     challengesWon := challengesWon st; challengesLost := challengesLost st + 1;
     earnings := earnings st |}.

(** [winnerId] of the settlement block. *)
Definition winnerId (ch : PendingChallenge) (cs ts : Js.number) : string :=
  if Js.gt cs ts then challengerId ch else targetId ch.

(** [loserId] of the settlement block. *)
Definition loserId (ch : PendingChallenge) (cs ts : Js.number) : string :=
  if String.eqb (winnerId ch cs ts) (challengerId ch) then targetId ch else challengerId ch.

(** [x === challenge.challengerId ? challenge.challengerName : challenge.targetName]. *)
Definition nameOf (ch : PendingChallenge) (x : string) : string :=
  if String.eqb x (challengerId ch) then challengerName ch else targetName ch.

(** [x === challenge.challengerId ? challenge.challengerScore : challenge.targetScore]. *)
Definition scoreOf (ch : PendingChallenge) (x : string) : option Js.number :=
  if String.eqb x (challengerId ch) then challengerScore ch else targetScore ch.

(** The block under [if (challenge.challengerScore !== null &&
    challenge.targetScore !== null)]: both players finished. *)
Definition settle (uid cid : string) (score : Js.number) (ch : PendingChallenge)
    (cs ts : Js.number) (prize : PrizeOutcome) (s : State) : Outcome :=
  let w := winnerId ch cs ts in
  let l := loserId ch cs ts in
  let '(_, _, winnerPrize) := revenueSplit CHALLENGE_FEE in
  let s1 := fst (getOrCreatePlayerStats w (nameOf ch w) s) in
  let s2 := fst (getOrCreatePlayerStats l (nameOf ch l) s1) in
  let s3 := with_playerStats (alter (won winnerPrize) w) s2 in
  let s4 := with_playerStats (alter lost l) s3 in
  let '(txHash, sent) := sendPrize w winnerPrize prize in
  let s5 := with_pendingChallenges (delete cid) s4 in
  (s5,
   app sent
     [SendMessage (channelId ch)
        (MsgChallengeComplete w l (scoreOf ch w) (scoreOf ch l) winnerPrize txHash)],
   JsonChallengeComplete score (String.eqb uid w) w l (scoreOf ch w) (scoreOf ch l)
     winnerPrize).

(** The block under [if (challenge)]: record the score of the party that
    submitted it, then settle or wait. *)
Definition recordScore (uid : string) (score : Js.number) (ch : PendingChallenge)
    : PendingChallenge :=
  if String.eqb uid (challengerId ch) then set_challengerScore score ch
  else if String.eqb uid (targetId ch) then set_targetScore score ch
  else ch.

Definition scoreChallenge (uid cid : string) (score : Js.number) (ch : PendingChallenge)
    (prize : PrizeOutcome) (s : State) : Outcome :=
  let ch' := recordScore uid score ch in
  let s1 := if String.eqb uid (challengerId ch) || String.eqb uid (targetId ch)
            then with_pendingChallenges <[cid := ch']> s
            else s in
  match challengerScore ch', targetScore ch' with
  | Some cs, Some ts => settle uid cid score ch' cs ts prize s1
  | _, _ => (s1, [], JsonWaitingForOpponent score)
  end.

(** The end of the score handler: solo play contributes to the jackpot. *)
Definition soloPlay (score : Js.number) (s : State) : Outcome :=
  let jackpotContribution := Z.quot ENTRY_FEE 10 in
  let s1 := with_jackpotPool (fun j => j + jackpotContribution) s in
  (s1, [], JsonSolo score (jackpotPool s1)).

(** [app.post('/api/score', ...)]. *)
Definition onScore (body : ScoreBody) (now : Z) (prize : PrizeOutcome) (s : State)
    : Outcome :=
  match Js.present (bodyUserId body), bodyScore body, bodyTimestamp body with
  | Some uid, Some score, Some timestamp =>
      if Js.lt score (Js.of_Z 0) || Js.gt score (Js.of_Z 100000)
      then (s, [], Json400 "Invalid score range: must be 0-100000")
      else if Js.lt timestamp (Js.of_Z 0) || Js.gt timestamp (Js.of_Z (now + 60000))
      then (s, [], Json400 "Invalid timestamp")
      else
        let s1 := updatePlayerStats uid (Js.or_default (bodyDisplayName body) "Player")
                    score s in
        let s2 := with_totalGamesPlayed (fun n => n + 1) s1 in
        match Js.present (bodyChallengeId body) with
        | Some cid =>
            match pendingChallenges s2 !! cid with
            | Some ch => scoreChallenge uid cid score ch prize s2
            | None => soloPlay score s2
            end
        | None => soloPlay score s2
        end
  | _, _, _ => (s, [], Json400 "Invalid input: missing required fields")
  end.

(** A queued [setTimeout] callback runs. *)
Definition runTimer (t : Timer) (s : State) : State :=
  match t with
  | DeletePayment paymentId => with_pendingPayments (delete paymentId) s
  | DeletePaymentAndConfirmed paymentId =>
      with_confirmedPayments (fun c => c ∖ {[paymentId]})
        (with_pendingPayments (delete paymentId) s)
  end.

Definition onTimer (k : nat) (s : State) : Outcome :=
  match timers s !! k with
  | None => (s, [], NoResponse)
  | Some t => (runTimer t (with_timers (delete k) s), [], NoResponse)
  end.

(** ** The transition system *)

Definition handle (e : Event) (s : State) : Outcome :=
  match e with
  | SlashChallenge user channel mentions now => onSlashChallenge user channel mentions now s
  | TransactionResponse requestId txHash v => onTransactionResponse requestId txHash v s
  | FormResponse user requestId components prizes =>
      onFormResponse user requestId components prizes s
  | RequestPayment user channel now => onRequestPayment user channel now s
  | ScoreSubmission body now prize => onScore body now prize s
  | TimerFires k => onTimer k s
  end.

Definition next (e : Event) (s : State) : State := fst (fst (handle e s)).
Definition trace (e : Event) (s : State) : list Effect := snd (fst (handle e s)).
Definition reply (e : Event) (s : State) : Response := snd (handle e s).

(** Run a list of events from a state, oldest first, collecting the trace. *)
Fixpoint run (es : list Event) (s : State) : State * list Effect :=
  match es with
  | [] => (s, [])
  | e :: rest =>
      let '(s', effs) := run rest (next e s) in
      (s', app (trace e s) effs)
  end.

(** The states the process can be in: the empty stores, closed under the
    handlers. *)
Inductive reachable : State -> Prop :=
| reachable_initial : reachable initial
| reachable_next e s : reachable s -> reachable (next e s).

(** ** Observations used in the statements *)

(** The calls of [sendPrize] in a trace: recipient and amount, in order. *)
Fixpoint disbursements (effs : list Effect) : list (string * Z) :=
  match effs with
  | [] => []
  | SendPrize recipient amount _ :: rest => (recipient, amount) :: disbursements rest
  | _ :: rest => disbursements rest
  end.

(** Win, loss and earnings counters of a player, 0 for a player without a
    record (a record is created with all three at 0). *)
Definition wins (s : State) (u : string) : Z :=
  default 0 (challengesWon <$> playerStats s !! u).
Definition losses (s : State) (u : string) : Z :=
  default 0 (challengesLost <$> playerStats s !! u).
Definition earned (s : State) (u : string) : Z :=
  default 0 (earnings <$> playerStats s !! u).

(** The decline buttons of a form response. *)
Definition isDecline (c : Component) : bool :=
  isButton c && String.eqb (componentId c) "decline".

(** [a < z] and [a > z] for an integer bound [z], read off the value the
    number denotes. [NaN] is neither below nor above anything. *)
Definition below (a : Js.number) (z : Z) : Prop :=
  match a with
  | Js.NaN => False
  | Js.Infinity negative => negative = true
  | Js.Finite q => (q < inject_Z z)%Q
  end.

Definition above (a : Js.number) (z : Z) : Prop :=
  match a with
  | Js.NaN => False
  | Js.Infinity negative => negative = false
  | Js.Finite q => (inject_Z z < q)%Q
  end.

(** The request carries no numeric score or one outside 0..100000, or no
    numeric timestamp or one that is negative or more than 60000 ms ahead
    of the clock. *)
Definition refused (body : ScoreBody) (now : Z) : Prop :=
  match bodyScore body with
  | None => True
  | Some score => below score 0 ∨ above score 100000
  end
  ∨ match bodyTimestamp body with
    | None => True
    | Some timestamp => below timestamp 0 ∨ above timestamp (now + 60000)
    end.

(** The test of the [catch] block for "RPC timeout". *)
Definition isTimeoutMessage (errorMessage : string) : bool :=
  Js.includes "timeout" errorMessage || Js.includes "timed out" errorMessage.

(** The message of the error [waitForTransactionReceipt] throws when its own
    [timeout] (here [120_000] ms) elapses before the transaction is mined:
    "Timed out while waiting for transaction with hash", the hash between
    double quotes, "to be confirmed." This is its first line; the library
    adds a line with its version, which has neither of the two words the
    [catch] block looks for. *)
Definition doubleQuote : string := String (ascii_of_nat 34) EmptyString.

Definition waitTimeoutMessage (hash : string) : string :=
  "Timed out while waiting for transaction with hash " ++ doubleQuote ++ hash
  ++ doubleQuote ++ " to be confirmed.".


(** What every challenge in the live set satisfies. *)
Definition challenge_ok (ch : PendingChallenge) : Prop :=
  wager ch = CHALLENGE_FEE ∧ challengerId ch ≠ targetId ch.

Definition challenges_ok (s : State) : Prop :=
  map_Forall (fun _ ch => challenge_ok ch) (pendingChallenges s).

(** ** Concrete runs

    Two players, ["alice"] and ["bob"], in channel ["town"]; the clock reads
    1 when the challenge is issued, so the challenge is ["challenge-1"]. *)

Definition prizeSent : PrizeOutcome := ReceiptStatus "0xprize" true.

Definition scoreBody (user : string) (score : Js.number) (challenge : option string)
    : ScoreBody :=
  {| bodyUserId := Some user; bodyScore := Some score;
     bodyTimestamp := Some (Js.of_Z 5); bodyDisplayName := Some user;
     bodyChallengeId := challenge |}.

Definition challengeIssued : list Event :=
  [SlashChallenge "alice" "town" [mkMention "bob" "Bob"] 1].

(** Issued, challenger leg verified, accepted, acceptor leg verified. *)
Definition bothPaid : list Event :=
  [SlashChallenge "alice" "town" [mkMention "bob" "Bob"] 1;
   TransactionResponse "challenge-init-challenge-1" (Some "0xA") (Receipt true);
   FormResponse "bob" "challenge-response-challenge-1" [mkComponent "accept" true]
     (fun _ => NoSmartAccount);
   TransactionResponse "challenge-accept-challenge-1" (Some "0xB") (Receipt true)].

Definition aliceScores (score : Z) : Event :=
  ScoreSubmission (scoreBody "alice" (Js.of_Z score) (Some "challenge-1")) 10 prizeSent.

Definition bobScores (score : Z) (prize : PrizeOutcome) : Event :=
  ScoreSubmission (scoreBody "bob" (Js.of_Z score) (Some "challenge-1")) 10 prize.

Definition declineByBob (prizes : nat -> PrizeOutcome) : Event :=
  FormResponse "bob" "challenge-response-challenge-1" [mkComponent "decline" true] prizes.

(** A solo payment request of alice at clock 1: ["play-alice-1"]. *)
Definition soloRequested : list Event :=
  [RequestPayment (Some "alice") (Some "town") 1].

Definition soloCallback (txHash : option string) (v : Verification) : Event :=
  TransactionResponse "play-alice-1" txHash v.

Definition after (es : list Event) : State := fst (run es initial).

(** ** Read-only routes and commands

    These read the stores and answer; they are not transitions. A JS [Map]
    iterates in insertion order, which a [gmap] does not keep: the routes
    that iterate take the sequence of entries as an argument, and the
    statements about a state quantify over every sequence that enumerates
    the store. *)

(** The answer of [/api/check-payment]. *)
Inductive PaymentReply :=
| PaymentMissingId
| PaymentNotFound
| PaymentIs (st : PaymentStatus).

(** [app.post('/api/check-payment', ...)]. *)
Definition checkPayment (paymentId : option string) (s : State) : PaymentReply :=
  match Js.present paymentId with
  | None => PaymentMissingId
  | Some pid =>
      match pendingPayments s !! pid with
      | None => PaymentNotFound
      | Some payment =>
          match status payment with
          | confirmed => PaymentIs confirmed
          | failed => PaymentIs failed
          | pending => PaymentIs pending
          end
      end
  end.

(** The answer of [/api/check-challenge]. The wager is reported in token
    units, before [formatUnits] turns it into a decimal string. *)
Inductive ChallengeReply :=
| ChallengeMissingUser
| NoActiveChallenge
| ChallengePaid (cid : string) (hasPlayed : bool) (opponentName : string) (wagerUnits : Z)
| ChallengeUnpaid (cid : string).

(** The loop of [/api/check-challenge] over [pendingChallenges.entries()].
    [lower] is [toLowerCase]; [normalized] is the lower-cased user. *)
Fixpoint findChallenge (lower : string -> string) (normalized : string)
    (entries : list (string * PendingChallenge)) : ChallengeReply :=
  match entries with
  | [] => NoActiveChallenge
  | (cid, challenge) :: rest =>
      let isChallenger := String.eqb (lower (challengerId challenge)) normalized in
      let isInvolved :=
        isChallenger || String.eqb (lower (targetId challenge)) normalized in
      if isInvolved then
        if challengerPaid challenge && targetPaid challenge then
          ChallengePaid cid
            (if isChallenger
             then match challengerScore challenge with Some _ => true | None => false end
             else match targetScore challenge with Some _ => true | None => false end)
            (if isChallenger then targetName challenge else challengerName challenge)
            (wager challenge)
        else ChallengeUnpaid cid
      else findChallenge lower normalized rest
  end.

(** [app.post('/api/check-challenge', ...)]. *)
Definition checkChallenge (lower : string -> string) (user : option string)
    (entries : list (string * PendingChallenge)) : ChallengeReply :=
  match Js.present user with
  | None => ChallengeMissingUser
  | Some uid => findChallenge lower (lower uid) entries
  end.

Module JsArray.

(** [a - b] on numbers. *)
Definition sub (a b : Js.number) : Js.number :=
  match a, b with
  | Js.NaN, _ | _, Js.NaN => Js.NaN
  | Js.Finite x, Js.Finite y => Js.Finite (Qred (x - y))
  | Js.Infinity s, Js.Infinity t => if Bool.eqb s t then Js.NaN else Js.Infinity s
  | Js.Infinity s, Js.Finite _ => Js.Infinity s
  | Js.Finite _, Js.Infinity t => Js.Infinity (negb t)
  end.

(** [Array.prototype.sort(compare)]. The sort is stable and puts [a] after
    [b] exactly when [compare(a, b) > 0]; for a comparator that orders the
    elements consistently this fixes the result, which is computed here by
    insertion from the right. *)
Fixpoint insert {A : Type} (compare : A -> A -> Js.number) (x : A) (sorted : list A)
    : list A :=
  match sorted with
  | [] => [x]
  | y :: rest =>
      if Js.gt (compare x y) (Js.of_Z 0) then y :: insert compare x rest
      else x :: y :: rest
  end.

Fixpoint sort {A : Type} (compare : A -> A -> Js.number) (l : list A) : list A :=
  match l with
  | [] => []
  | x :: rest => insert compare x (sort compare rest)
  end.

End JsArray.

(** [topPlayers] of the [/leaderboard] command, from
    [Array.from(playerStats.values())]. *)
Definition topPlayers (values : list PlayerStats) : list PlayerStats :=
  firstn 10
    (JsArray.sort (fun a b => JsArray.sub (bestScore b) (bestScore a))
       (List.filter (fun p => Js.gt (bestScore p) (Js.of_Z 0)) values)).

(** What the [/leaderboard] command sends: the "no players yet" message when
    the store is empty, otherwise the board built from [topPlayers]. *)
Inductive LeaderboardMessage :=
| NoPlayersYet
| Board (rows : list PlayerStats).

Definition leaderboard (values : list PlayerStats) : LeaderboardMessage :=
  match values with
  | [] => NoPlayersYet
  | _ => Board (topPlayers values)
  end.

(** [p] may stand before [q] on the board: the best score of [q] is not
    greater than that of [p]. *)
Definition ranksBefore (p q : PlayerStats) : Prop :=
  Js.gt (bestScore q) (bestScore p) = false.


(** A sequence enumerates a store: it lists exactly the store's entries. *)
Definition enumerates {V : Type} (entries : list (string * V)) (m : gmap string V) : Prop :=
  ∀ k v, (k, v) ∈ entries ↔ m !! k = Some v.

(** ** Further observations *)

(** Whether the transaction branch takes a response as a successful
    payment: there is a hash, and the receipt says success or the error is
    classified as a timeout. *)
Definition accepted (txHash : option string) (v : Verification) : bool :=
  match Js.present txHash, v with
  | None, _ => false
  | Some _, Receipt success => success
  | Some _, VerifyThrows errorMessage => isTimeoutMessage errorMessage
  end.

(** A score passes the range test of the score route. *)
Definition inRange (score : Js.number) : Prop :=
  Js.lt score (Js.of_Z 0) || Js.gt score (Js.of_Z 100000) = false.

(** The updates one run of the score route can apply to one player record,
    in the order the route applies them: the game of the submitter, the win
    of the winner, the loss of the loser. *)
Definition tally (game : option Js.number) (win loss : bool) (st : PlayerStats)
    : PlayerStats :=
  let st1 := match game with Some score => recordGame score st | None => st end in
  let st2 := if win then won 396000 st1 else st1 in
  if loss then lost st2 else st2.

(** What holds of every player record the handlers produce. *)
Definition stats_ok (st : PlayerStats) : Prop :=
  (∃ q, bestScore st = Js.Finite q ∧ (0 <= q)%Q ∧ (q <= 100000)%Q)
  ∧ earnings st = 396000 * challengesWon st
  ∧ 0 <= gamesPlayed st ∧ 0 <= challengesWon st ∧ 0 <= challengesLost st.

(** A best score is kept or replaced by a greater one. *)
Definition best_le (a b : Js.number) : Prop := b = a ∨ Js.gt b a = true.

(** A record only grows: same name, no counter goes down. *)
Definition grows (st st' : PlayerStats) : Prop :=
  displayName st' = displayName st
  ∧ gamesPlayed st <= gamesPlayed st'
  ∧ challengesWon st <= challengesWon st'
  ∧ challengesLost st <= challengesLost st'
  ∧ earnings st <= earnings st'.

(** The challenge that [/challenge] files. *)
Definition isFresh (user : string) (cid : string) (ch : PendingChallenge) : Prop :=
  id ch = cid ∧ challengerId ch = user ∧ targetId ch ≠ user
  ∧ wager ch = CHALLENGE_FEE
  ∧ challengerPaid ch = false ∧ targetPaid ch = false
  ∧ challengerScore ch = None ∧ targetScore ch = None
  ∧ challengerTxHash ch = None ∧ targetTxHash ch = None.

(** How an event can change a challenge that stays in the live set. *)
Inductive changes (s : State) (cid : string) (ch : PendingChallenge)
    : Event -> PendingChallenge -> Prop :=
| changes_nothing e : changes s cid ch e ch
| changes_challengerPaid requestId txHash h p :
    Js.present txHash = Some h →
    pendingPayments s !! requestId = Some p →
    type p = challenge_initiator →
    Js.present (challengeId p) = Some cid →
    changes s cid ch (TransactionResponse requestId txHash (Receipt true))
      (set_challengerPaid h ch)
| changes_targetPaid requestId txHash h p :
    Js.present txHash = Some h →
    pendingPayments s !! requestId = Some p →
    type p = challenge_acceptor →
    Js.present (challengeId p) = Some cid →
    changes s cid ch (TransactionResponse requestId txHash (Receipt true))
      (set_targetPaid h ch)
| changes_score body now prize uid score :
    Js.present (bodyUserId body) = Some uid →
    bodyScore body = Some score →
    inRange score →
    Js.present (bodyChallengeId body) = Some cid →
    challengerScore (recordScore uid score ch) = None
    ∨ targetScore (recordScore uid score ch) = None →
    changes s cid ch (ScoreSubmission body now prize) (recordScore uid score ch).

(** What holds of every challenge of the live set, filed under [cid]. *)
Definition challenge_wf (cid : string) (ch : PendingChallenge) : Prop :=
  id ch = cid ∧ (challengerScore ch = None ∨ targetScore ch = None).

(** The user is a party of the challenge, as [/api/check-challenge] sees
    it. *)
Definition involves (lower : string -> string) (uid : string) (ch : PendingChallenge)
    : Prop :=
  lower (challengerId ch) = lower uid ∨ lower (targetId ch) = lower uid.

(** The accept buttons of a form response. *)
Definition isAccept (c : Component) : bool :=
  isButton c && String.eqb (componentId c) "accept".

(** The pending entry the accept branch files for a challenge. *)
Definition acceptorPayment (user cid : string) (ch : PendingChallenge) : PendingPayment :=
  {| userId := user; type := challenge_acceptor; challengeId := Some cid;
     paymentChannelId := channelId ch; status := pending |}.

(** The payment a queued callback will remove. *)
Definition timerPayment (t : Timer) : string :=
  match t with
  | DeletePayment paymentId => paymentId
  | DeletePaymentAndConfirmed paymentId => paymentId
  end.

(** A clean-up of the payment is queued. *)
Definition cleanupQueued (paymentId : string) (s : State) : Prop :=
  DeletePayment paymentId ∈ timers s ∨ DeletePaymentAndConfirmed paymentId ∈ timers s.

(** Every payment that reached a terminal status, and every identifier in
    the confirmed set, has a clean-up queued. *)
Definition ledger_tidy (s : State) : Prop :=
  (∀ paymentId p, pendingPayments s !! paymentId = Some p → status p ≠ pending →
     cleanupQueued paymentId s)
  ∧ (∀ paymentId, paymentId ∈ confirmedPayments s →
       DeletePaymentAndConfirmed paymentId ∈ timers s).

(** ASCII lower-casing, for the concrete runs. *)
Fixpoint asciiLower (s : string) : string :=
  match s with
  | EmptyString => EmptyString
  | String c rest =>
      let n := nat_of_ascii c in
      String (if (65 <=? n)%nat && (n <=? 90)%nat then ascii_of_nat (n + 32) else c)
        (asciiLower rest)
  end.

(** A third player for the concrete runs. *)
Definition carolScores (score : Z) (challenge : option string) : Event :=
  ScoreSubmission (scoreBody "carol" (Js.of_Z score) challenge) 10 prizeSent.

(** ** Basic facts *)

Section Frames.

Lemma updatePlayerStats_challenges uid name score s :
  pendingChallenges (updatePlayerStats uid name score s) = pendingChallenges s.
Proof.
  unfold updatePlayerStats, getOrCreatePlayerStats.
  destruct (playerStats s !! uid); reflexivity.
Qed.

Lemma updatePlayerStats_payments uid name score s :
  pendingPayments (updatePlayerStats uid name score s) = pendingPayments s.
Proof.
  unfold updatePlayerStats, getOrCreatePlayerStats.
  destruct (playerStats s !! uid); reflexivity.
Qed.

Lemma formComponents_challenges user cid ch prizes cs : forall k s,
  pendingChallenges (fst (formComponents user cid ch prizes k cs s))
  = if existsb isDecline cs then delete cid (pendingChallenges s) else pendingChallenges s.
Proof.
  induction cs as [|c cs IH]; intros k s; simpl; [reflexivity|].
  unfold isDecline at 1.
  destruct (isButton c); simpl; [|apply IH].
  destruct (String.eqb (componentId c) "accept") eqn:Ea; simpl.
  - apply String.eqb_eq in Ea; rewrite Ea; simpl.
    specialize (IH k (with_pendingPayments
      <["challenge-accept-" ++ cid :=
         {| userId := user; type := challenge_acceptor; challengeId := Some cid;
            paymentChannelId := channelId ch; status := pending |}]> s)).
    destruct (formComponents _ _ _ _ _ _ _) as [s2 effs]; simpl in *. exact IH.
  - destruct (String.eqb (componentId c) "decline"); simpl; [|apply IH].
    specialize (IH (S k) (with_pendingChallenges (delete cid) s)).
    destruct (formComponents _ _ _ _ _ _ _) as [s2 effs]; simpl in *.
    rewrite IH. destruct (existsb isDecline cs); simpl; [|reflexivity].
    apply delete_delete_eq.
Qed.

Lemma formComponents_playerStats user cid ch prizes cs : forall k s,
  playerStats (fst (formComponents user cid ch prizes k cs s)) = playerStats s.
Proof.
  induction cs as [|c cs IH]; intros k s; simpl; [reflexivity|].
  destruct (isButton c); [|apply IH].
  destruct (String.eqb (componentId c) "accept").
  - specialize (IH k (with_pendingPayments
      <["challenge-accept-" ++ cid :=
         {| userId := user; type := challenge_acceptor; challengeId := Some cid;
            paymentChannelId := channelId ch; status := pending |}]> s)).
    destruct (formComponents _ _ _ _ _ _ _) as [s2 effs]; simpl in *. exact IH.
  - destruct (String.eqb (componentId c) "decline"); [|apply IH].
    specialize (IH (S k) (with_pendingChallenges (delete cid) s)).
    destruct (formComponents _ _ _ _ _ _ _) as [s2 effs]; simpl in *. exact IH.
Qed.

Lemma formComponents_disbursements user cid ch prizes cs : forall k s,
  disbursements (snd (formComponents user cid ch prizes k cs s))
  = List.map (fun _ => (challengerId ch, CHALLENGE_FEE)) (List.filter isDecline cs).
Proof.
  induction cs as [|c cs IH]; intros k s; simpl; [reflexivity|].
  unfold isDecline at 1.
  destruct (isButton c); simpl; [|apply IH].
  destruct (String.eqb (componentId c) "accept") eqn:Ea; simpl.
  - apply String.eqb_eq in Ea; rewrite Ea; simpl.
    specialize (IH k (with_pendingPayments
      <["challenge-accept-" ++ cid :=
         {| userId := user; type := challenge_acceptor; challengeId := Some cid;
            paymentChannelId := channelId ch; status := pending |}]> s)).
    destruct (formComponents _ _ _ _ _ _ _) as [s2 effs]; simpl in *. exact IH.
  - destruct (String.eqb (componentId c) "decline"); simpl; [|apply IH].
    specialize (IH (S k) (with_pendingChallenges (delete cid) s)).
    destruct (formComponents _ _ _ _ _ _ _) as [s2 effs]; simpl in *.
    now rewrite IH.
Qed.

End Frames.

Create HintDb challenge.

Section Invariant.

Lemma challenge_ok_set_challengerPaid h ch :
  challenge_ok ch → challenge_ok (set_challengerPaid h ch).
Proof. intros [Hw Hne]; split; assumption. Qed.

Lemma challenge_ok_set_targetPaid h ch :
  challenge_ok ch → challenge_ok (set_targetPaid h ch).
Proof. intros [Hw Hne]; split; assumption. Qed.

Lemma challenge_ok_set_challengerScore n ch :
  challenge_ok ch → challenge_ok (set_challengerScore n ch).
Proof. intros [Hw Hne]; split; assumption. Qed.

Lemma challenge_ok_set_targetScore n ch :
  challenge_ok ch → challenge_ok (set_targetScore n ch).
Proof. intros [Hw Hne]; split; assumption. Qed.

#[local] Hint Resolve challenge_ok_set_challengerPaid challenge_ok_set_targetPaid
  challenge_ok_set_challengerScore challenge_ok_set_targetScore : challenge.

Lemma onSlashChallenge_ok user channel mentions now s :
  challenges_ok s → challenges_ok (fst (fst (onSlashChallenge user channel mentions now s))).
Proof.
  intros Hs. unfold onSlashChallenge.
  destruct mentions as [|m ms]; [exact Hs|].
  destruct (String.eqb (mentionUserId m) user) eqn:E; [exact Hs|].
  simpl. apply map_Forall_insert_2; [|exact Hs].
  split; simpl; [reflexivity|].
  apply String.eqb_neq in E. congruence.
Qed.

Lemma onTransactionResponse_ok requestId txHash v s :
  challenges_ok s → challenges_ok (fst (fst (onTransactionResponse requestId txHash v s))).
Proof.
  intros Hs. unfold onTransactionResponse.
  destruct (pendingPayments s !! requestId) as [p|]; [|exact Hs].
  destruct (Js.present txHash) as [h|]; [|exact Hs].
  destruct v as [[|]|msg].
  - unfold transactionVerified.
    destruct (type p), (Js.present (challengeId p)) as [cid|]; try exact Hs;
      destruct (pendingChallenges s !! cid) as [ch|] eqn:E; try exact Hs;
      simpl; apply map_Forall_insert_2; auto with challenge;
      apply (Hs cid ch E).
  - exact Hs.
  - unfold transactionVerifyError.
    destruct (_ || _); exact Hs.
Qed.

Lemma onFormResponse_ok user requestId components prizes s :
  challenges_ok s →
  challenges_ok (fst (fst (onFormResponse user requestId components prizes s))).
Proof.
  intros Hs. unfold onFormResponse.
  destruct (Js.startsWith _ _); [|exact Hs].
  destruct (pendingChallenges s !! _) as [ch|]; [|exact Hs].
  destruct (String.eqb user (targetId ch)); [|exact Hs].
  pose proof (formComponents_challenges user
    (Js.replace "challenge-response-" "" requestId) ch prizes components 0%nat s) as H.
  destruct (formComponents _ _ _ _ _ _ _) as [s' effs]; simpl in *.
  unfold challenges_ok. rewrite H.
  destruct (existsb isDecline components); [|exact Hs].
  apply map_Forall_delete, Hs.
Qed.

Lemma settle_ok uid cid score ch cs ts prize s :
  challenges_ok s → challenges_ok (fst (fst (settle uid cid score ch cs ts prize s))).
Proof.
  intros Hs. unfold settle, getOrCreatePlayerStats; simpl.
  apply map_Forall_delete.
  destruct (playerStats s !! _); simpl;
    match goal with |- context [match ?x with _ => _ end] => destruct x end; exact Hs.
Qed.

Lemma scoreChallenge_ok uid cid score ch prize s :
  challenges_ok s → pendingChallenges s !! cid = Some ch →
  challenges_ok (fst (fst (scoreChallenge uid cid score ch prize s))).
Proof.
  intros Hs Hch. pose proof (Hs cid ch Hch) as Hok. unfold scoreChallenge.
  set (ch' := recordScore uid score ch).
  set (s1 := if String.eqb uid (challengerId ch) || _ then _ else _).
  assert (Hs1 : challenges_ok s1).
  { subst s1 ch'. unfold recordScore.
    destruct (String.eqb uid (challengerId ch)); simpl.
    - apply map_Forall_insert_2; auto with challenge.
    - destruct (String.eqb uid (targetId ch)); [|exact Hs].
      apply map_Forall_insert_2; auto with challenge. }
  destruct (challengerScore ch') as [cs|]; [|exact Hs1].
  destruct (targetScore ch') as [ts|]; [|exact Hs1].
  apply settle_ok, Hs1.
Qed.

Lemma onScore_ok body now prize s :
  challenges_ok s → challenges_ok (fst (fst (onScore body now prize s))).
Proof.
  intros Hs. unfold onScore.
  destruct (Js.present (bodyUserId body)) as [uid|]; [|exact Hs].
  destruct (bodyScore body) as [score|]; [|exact Hs].
  destruct (bodyTimestamp body) as [timestamp|]; [|exact Hs].
  destruct (_ || _); [exact Hs|].
  destruct (_ || _); [exact Hs|].
  set (s2 := with_totalGamesPlayed _ _).
  assert (Hs2 : challenges_ok s2).
  { unfold challenges_ok, s2; simpl. rewrite updatePlayerStats_challenges. exact Hs. }
  destruct (Js.present (bodyChallengeId body)) as [cid|]; [|exact Hs2].
  destruct (pendingChallenges s2 !! cid) as [ch|] eqn:E; [|exact Hs2].
  apply scoreChallenge_ok; assumption.
Qed.

Lemma next_challenges_ok e s : challenges_ok s → challenges_ok (next e s).
Proof.
  intros Hs. destruct e; unfold next, handle.
  - apply onSlashChallenge_ok, Hs.
  - apply onTransactionResponse_ok, Hs.
  - apply onFormResponse_ok, Hs.
  - unfold onRequestPayment.
    destruct (Js.present user), (Js.present channel); exact Hs.
  - apply onScore_ok, Hs.
  - unfold onTimer. destruct (timers s !! k) as [[pid|pid]|]; exact Hs.
Qed.

(** Every live challenge of a reachable state carries the challenge fee as
    its wager and opposes two different identities. *)
Lemma reachable_challenges_ok s : reachable s → challenges_ok s.
Proof.
  induction 1 as [|e s _ IH].
  - apply map_Forall_empty.
  - apply next_challenges_ok, IH.
Qed.

Lemma reachable_run es : forall s, reachable s → reachable (fst (run es s)).
Proof.
  induction es as [|e es IH]; intros s Hs; simpl; [exact Hs|].
  specialize (IH (next e s) (reachable_next e s Hs)).
  destruct (run es (next e s)); exact IH.
Qed.

End Invariant.

(** ** The score handler, case by case *)

Section ScoreHandler.

Lemma recordScore_ids uid score ch :
  challengerId (recordScore uid score ch) = challengerId ch
  ∧ targetId (recordScore uid score ch) = targetId ch
  ∧ wager (recordScore uid score ch) = wager ch
  ∧ challengerPaid (recordScore uid score ch) = challengerPaid ch
  ∧ targetPaid (recordScore uid score ch) = targetPaid ch.
Proof.
  unfold recordScore.
  destruct (String.eqb uid (challengerId ch)); [repeat split|].
  destruct (String.eqb uid (targetId ch)); repeat split.
Qed.

(** A request that passes the three validation tests and names a live
    challenge runs [scoreChallenge] on the updated statistics. *)
Lemma onScore_challenge body now prize s uid score timestamp cid ch :
  Js.present (bodyUserId body) = Some uid →
  bodyScore body = Some score →
  bodyTimestamp body = Some timestamp →
  Js.lt score (Js.of_Z 0) || Js.gt score (Js.of_Z 100000) = false →
  Js.lt timestamp (Js.of_Z 0) || Js.gt timestamp (Js.of_Z (now + 60000)) = false →
  Js.present (bodyChallengeId body) = Some cid →
  pendingChallenges s !! cid = Some ch →
  onScore body now prize s
  = scoreChallenge uid cid score ch prize
      (with_totalGamesPlayed (fun n => n + 1)
         (updatePlayerStats uid (Js.or_default (bodyDisplayName body) "Player") score s)).
Proof.
  intros Hu Hs Ht Hv1 Hv2 Hc Hch. unfold onScore.
  rewrite Hu, Hs, Ht, Hv1, Hv2, Hc. simpl.
  rewrite updatePlayerStats_challenges, Hch. reflexivity.
Qed.

(** Whenever the handler answers "challenge complete", it ran [settle] on a
    live challenge in which both scores are recorded. *)
Lemma onScore_complete body now prize s sc isW w l ws ls p :
  snd (onScore body now prize s) = JsonChallengeComplete sc isW w l ws ls p →
  ∃ uid cid ch0 cs ts s1,
    Js.present (bodyChallengeId body) = Some cid
    ∧ pendingChallenges s !! cid = Some ch0
    ∧ challengerScore (recordScore uid sc ch0) = Some cs
    ∧ targetScore (recordScore uid sc ch0) = Some ts
    ∧ playerStats s1 = playerStats (updatePlayerStats uid
         (Js.or_default (bodyDisplayName body) "Player") sc s)
    ∧ onScore body now prize s = settle uid cid sc (recordScore uid sc ch0) cs ts prize s1.
Proof.
  unfold onScore.
  destruct (Js.present (bodyUserId body)) as [uid|]; [|discriminate].
  destruct (bodyScore body) as [score|]; [|discriminate].
  destruct (bodyTimestamp body) as [timestamp|]; [|discriminate].
  destruct (_ || _); [discriminate|].
  destruct (_ || _); [discriminate|].
  destruct (Js.present (bodyChallengeId body)) as [cid|]; [|discriminate].
  simpl. rewrite updatePlayerStats_challenges.
  destruct (pendingChallenges s !! cid) as [ch|] eqn:Hch; [|discriminate].
  unfold scoreChallenge.
  destruct (challengerScore (recordScore uid score ch)) as [cs|] eqn:Hcs; [|discriminate].
  destruct (targetScore (recordScore uid score ch)) as [ts|] eqn:Hts; [|discriminate].
  intros H.
  assert (score = sc) as ->.
  { unfold settle in H. simpl in H. congruence. }
  match type of H with
  | snd (settle _ _ _ _ _ _ _ ?s1) = _ => exists uid, cid, ch, cs, ts, s1
  end.
  repeat split; try assumption.
  destruct (String.eqb uid (challengerId ch) || String.eqb uid (targetId ch)); reflexivity.
Qed.

End ScoreHandler.

(** ** Settlement arithmetic *)

Lemma revenueSplit_spec (w : Z) :
  0 <= w →
  revenueSplit w = (2 * w, (2 * w) / 100, 2 * w - (2 * w) / 100).
Proof.
  intros Hw. unfold revenueSplit.
  rewrite Z.quot_div_nonneg by lia.
  replace (w * 2) with (2 * w) by lia. reflexivity.
Qed.

(** [C1] Settlement split. For every non-negative wager the split is
    pool = 2 * wager, fee = floor (pool / 100), payout = pool - fee, and
    payout + fee = 2 * wager; at wager 200000 these are 400000, 4000 and
    396000. Every settlement the score handler performs (it answers
    "challenge complete") is the settlement of a live challenge, disburses
    exactly the payout of that challenge's wager to the winner named in the
    answer, and reports the same amount as the prize. *)
Theorem settlement_split :
  (∀ w pool fee payout,
      0 <= w → revenueSplit w = (pool, fee, payout) →
      pool = 2 * w ∧ fee = pool / 100 ∧ payout = pool - fee ∧ payout + fee = 2 * w)
  ∧ revenueSplit 200000 = (400000, 4000, 396000)
  ∧ (∀ s body now prize sc isW w l ws ls p,
      reachable s →
      reply (ScoreSubmission body now prize) s = JsonChallengeComplete sc isW w l ws ls p →
      ∃ cid ch pool fee,
        Js.present (bodyChallengeId body) = Some cid
        ∧ pendingChallenges s !! cid = Some ch
        ∧ revenueSplit (wager ch) = (pool, fee, p)
        ∧ pool = 2 * wager ch ∧ fee = pool / 100 ∧ p = pool - fee
        ∧ p + fee = 2 * wager ch
        ∧ disbursements (trace (ScoreSubmission body now prize) s) = [(w, p)]).
Proof.
  split; [|split].
  - intros w pool fee payout Hw H.
    rewrite (revenueSplit_spec w Hw) in H. inversion H; subst. repeat split; lia.
  - reflexivity.
  - intros s body now prize sc isW w l ws ls p Hr H.
    unfold reply, trace, handle in *.
    destruct (onScore_complete _ _ _ _ _ _ _ _ _ _ _ H)
      as (uid & cid & ch0 & cs & ts & s1 & Hc & Hch & Hcs & Hts & _ & Heq).
    rewrite Heq in H |- *.
    destruct (reachable_challenges_ok s Hr cid ch0 Hch) as [Hw _].
    exists cid, ch0, 400000, 4000.
    unfold settle in H |- *; simpl in H |- *.
    inversion H; subst. rewrite Hw.
    repeat split; try reflexivity; assumption.
Qed.

(** ** Decline *)

Lemma startsWith_response cid :
  Js.startsWith "challenge-response-" ("challenge-response-" ++ cid) = true.
Proof. unfold Js.startsWith. simpl. destruct cid; reflexivity. Qed.

Lemma replace_response cid :
  Js.replace "challenge-response-" "" ("challenge-response-" ++ cid) = cid.
Proof.
  change ("challenge-response-" ++ cid)
    with (String "c" (String.append "hallenge-response-" cid)).
  unfold Js.replace at 1.
  pose proof (startsWith_response cid) as H. unfold Js.startsWith in H.
  change ("challenge-response-" ++ cid)
    with (String "c" (String.append "hallenge-response-" cid)) in H.
  rewrite H. reflexivity.
Qed.

Lemma one_decline_exists (components : list Component) :
  length (List.filter isDecline components) = 1%nat →
  existsb isDecline components = true.
Proof.
  induction components as [|c cs IH]; simpl; [discriminate|].
  destruct (isDecline c); [reflexivity|]. exact IH.
Qed.

(** Decline with one button. For a challenge in the live set of a reachable
    state, a form response from the target that carries exactly one decline
    button calls [sendPrize] exactly once, for the challenger and the wager
    amount, removes the challenge from the live set, and leaves every player
    record as it was; this holds for every outcome of the disbursement. The
    loop over the components has no [break], so a response with more decline
    buttons refunds once per button. *)
Theorem decline_refunds_once s cid ch components prizes :
  reachable s →
  pendingChallenges s !! cid = Some ch →
  length (List.filter isDecline components) = 1%nat →
  let e := FormResponse (targetId ch) ("challenge-response-" ++ cid) components prizes in
  disbursements (trace e s) = [(challengerId ch, wager ch)]
  ∧ pendingChallenges (next e s) !! cid = None
  ∧ playerStats (next e s) = playerStats s.
Proof.
  intros Hr Hch Hone e. subst e.
  destruct (reachable_challenges_ok s Hr cid ch Hch) as [Hw _].
  unfold trace, next, handle, onFormResponse.
  rewrite startsWith_response, replace_response, Hch, String.eqb_refl.
  pose proof (formComponents_disbursements (targetId ch) cid ch prizes components 0%nat s)
    as Hd.
  pose proof (formComponents_challenges (targetId ch) cid ch prizes components 0%nat s)
    as Hc.
  pose proof (formComponents_playerStats (targetId ch) cid ch prizes components 0%nat s)
    as Hp.
  destruct (formComponents _ _ _ _ _ _ _) as [s' effs]; simpl in *.
  rewrite (one_decline_exists _ Hone) in Hc.
  rewrite Hd, Hc, Hp, Hw.
  destruct (List.filter isDecline components) as [|d [|d' ds]]; try discriminate.
  repeat split. apply lookup_delete_eq.
Qed.

Lemma reachable_after es : reachable (after es).
Proof. apply reachable_run, reachable_initial. Qed.

Lemma decline_refunds_once_witness :
  disbursements (trace (declineByBob (fun _ => ExecuteThrows))
                   (after (firstn 2 bothPaid)))
  = [("alice", 200000)]
  ∧ pendingChallenges (next (declineByBob (fun _ => ExecuteThrows))
                         (after (firstn 2 bothPaid))) !! "challenge-1" = None
  ∧ playerStats (next (declineByBob (fun _ => ExecuteThrows))
                   (after (firstn 2 bothPaid)))
    = playerStats (after (firstn 2 bothPaid)).
Proof.
  refine (decline_refunds_once (after (firstn 2 bothPaid)) "challenge-1"
            {| id := "challenge-1"; challengerId := "alice"; challengerName := "Player";
               targetId := "bob"; targetName := "Bob"; wager := 200000;
               challengerPaid := true; targetPaid := false;
               challengerScore := None; targetScore := None; createdAt := 1;
               channelId := "town"; challengerTxHash := Some "0xA";
               targetTxHash := None |}
            [mkComponent "decline" true] (fun _ => ExecuteThrows) _ _ _).
  - apply reachable_after.
  - vm_compute. reflexivity.
  - reflexivity.
Defined.

(** [C4, fails on the code] Decline. Alice has challenged bob and paid her
    one wager; the challenge is live and nothing has been disbursed. Bob's
    form response carries two decline buttons. The loop over the components
    refunds on each of them: [sendPrize] is called twice for alice with the
    wager amount, and both transfers succeed here, so one payment is
    refunded twice. The challenge is removed and no player record changes.
    A second response, by contrast, is stopped by the look-up of the
    challenge and refunds nothing. *)
Theorem two_decline_buttons_refund_twice :
  let s := after (firstn 2 bothPaid) in
  let e := FormResponse "bob" "challenge-response-challenge-1"
             [mkComponent "decline" true; mkComponent "decline" true]
             (fun _ => prizeSent) in
  (∃ ch, pendingChallenges s !! "challenge-1" = Some ch
         ∧ challengerId ch = "alice" ∧ targetId ch = "bob"
         ∧ wager ch = 200000 ∧ challengerPaid ch = true ∧ targetPaid ch = false)
  ∧ disbursements (snd (run (firstn 2 bothPaid) initial)) = []
  ∧ trace e s
    = [SendPrize "alice" 200000 prizeSent;
       SendMessage "town" (MsgDeclined "bob" "Player" (Some "0xprize"));
       SendPrize "alice" 200000 prizeSent;
       SendMessage "town" (MsgDeclined "bob" "Player" (Some "0xprize"))]
  ∧ disbursements (trace e s) = [("alice", 200000); ("alice", 200000)]
  ∧ pendingChallenges (next e s) !! "challenge-1" = None
  ∧ playerStats (next e s) = playerStats s
  ∧ trace (declineByBob (fun _ => prizeSent))
      (next (declineByBob (fun _ => prizeSent)) s) = [].
Proof.
  cbv zeta. split; [|vm_compute; repeat split; reflexivity].
  eexists. split; [vm_compute; reflexivity|]. repeat split; reflexivity.
Qed.

Lemma settlement_split_witness :
  (400000 = 2 * 200000 ∧ 4000 = 400000 / 100 ∧ 396000 = 400000 - 4000
   ∧ 396000 + 4000 = 2 * 200000)
  ∧ ∃ cid ch pool fee,
      Js.present (bodyChallengeId (scoreBody "bob" (Js.of_Z 650) (Some "challenge-1")))
      = Some cid
      ∧ pendingChallenges (after (bothPaid ++ [aliceScores 800])) !! cid = Some ch
      ∧ revenueSplit (wager ch) = (pool, fee, 396000)
      ∧ pool = 2 * wager ch ∧ fee = pool / 100 ∧ 396000 = pool - fee
      ∧ 396000 + fee = 2 * wager ch
      ∧ disbursements (trace (bobScores 650 prizeSent) (after (bothPaid ++ [aliceScores 800])))
        = [("alice", 396000)].
Proof.
  split.
  - apply (proj1 settlement_split 200000 400000 4000 396000); [lia | reflexivity].
  - eapply (proj2 (proj2 settlement_split) (after (bothPaid ++ [aliceScores 800]))).
    + apply reachable_after.
    + vm_compute. reflexivity.
Defined.

(** ** Validation *)

Section Validation.

Lemma lt_below a z : Js.lt a (Js.of_Z z) = true ↔ below a z.
Proof.
  destruct a as [|neg|q]; simpl.
  - split; [discriminate | contradiction].
  - reflexivity.
  - unfold Js.Qlt_bool. rewrite Qlt_alt.
    destruct (q ?= inject_Z z)%Q; split; congruence.
Qed.

Lemma gt_above a z : Js.gt a (Js.of_Z z) = true ↔ above a z.
Proof.
  destruct a as [|neg|q]; unfold Js.gt; simpl.
  - split; [discriminate | contradiction].
  - destruct neg; simpl; split; congruence.
  - unfold Js.Qlt_bool. rewrite Qlt_alt.
    destruct (inject_Z z ?= q)%Q; split; congruence.
Qed.

Lemma out_of_range a lo hi :
  below a lo ∨ above a hi → Js.lt a (Js.of_Z lo) || Js.gt a (Js.of_Z hi) = true.
Proof.
  intros [H|H]; apply orb_true_iff; [left; apply lt_below | right; apply gt_above];
    exact H.
Qed.

Lemma in_range a lo hi :
  ¬ below a lo → ¬ above a hi → Js.lt a (Js.of_Z lo) || Js.gt a (Js.of_Z hi) = false.
Proof.
  intros Hlo Hhi. apply orb_false_iff; split; apply not_true_is_false.
  - rewrite lt_below. exact Hlo.
  - rewrite gt_above. exact Hhi.
Qed.

End Validation.

(** [C8, as amended] Validation. A score request whose score is not a number
    or lies outside the range 0..100000, or whose timestamp is not a number,
    is negative or is more than 60 seconds ahead of the server clock, is
    answered with a 400 validation error, sends nothing, and leaves the whole
    state (player records, challenges, payments, games played, jackpot pool)
    as it was. *)
Theorem invalid_score_request_rejected s body now prize :
  refused body now →
  ∃ error, handle (ScoreSubmission body now prize) s = (s, [], Json400 error).
Proof.
  unfold refused, handle, onScore. intros H.
  destruct (Js.present (bodyUserId body)) as [uid|]; [|eauto].
  destruct (bodyScore body) as [score|]; [|eauto].
  destruct (bodyTimestamp body) as [timestamp|]; [|eauto].
  destruct H as [H|H].
  - rewrite (out_of_range _ _ _ H). eauto.
  - rewrite (out_of_range _ _ _ H). destruct (_ || _); eauto.
Qed.

Lemma invalid_score_request_rejected_witness :
  ∃ error,
    handle (ScoreSubmission (scoreBody "alice" (Js.of_Z 100001) None) 10 prizeSent)
      (after bothPaid)
    = (after bothPaid, [], Json400 error).
Proof.
  apply invalid_score_request_rejected.
  left. right. reflexivity.
Defined.

(** [C8, as stated, fails] The score 1/2 is not an integer, yet the request
    is accepted as solo play: a record is created for the player, the games
    counter goes from 0 to 1 and the jackpot pool from 0 to 10000. *)
Lemma fractional_score_accepted :
  let e := ScoreSubmission (scoreBody "alice" (Js.Finite (1 # 2)) None) 10 prizeSent in
  ¬ Js.is_integer (Js.Finite (1 # 2))
  ∧ reply e initial = JsonSolo (Js.Finite (1 # 2)) 10000
  ∧ playerStats initial !! "alice" = None
  ∧ playerStats (next e initial) !! "alice"
    = Some {| displayName := "alice"; gamesPlayed := 1; bestScore := Js.Finite (1 # 2);
              totalScore := Js.Finite (1 # 2); challengesWon := 0; challengesLost := 0;
              earnings := 0 |}
  ∧ totalGamesPlayed (next e initial) = 1
  ∧ jackpotPool (next e initial) = 10000.
Proof.
  repeat split; try (vm_compute; reflexivity).
  intros [z Hz]. unfold Qeq in Hz. simpl in Hz. lia.
Qed.

(** ** Verification errors *)

(** Errors the handler takes for a timeout. When the callback carries a
    transaction hash for a payment in the ledger and the verification throws
    an error whose message contains "timeout" or "timed out" in lower case
    (the test of the [catch] block), the payment's status becomes confirmed,
    not failed, and its identifier joins the confirmed set. The error of the
    verification call's own time limit does not pass that test. *)
Theorem timeout_marks_confirmed s requestId txHash h errorMessage p :
  pendingPayments s !! requestId = Some p →
  Js.present txHash = Some h →
  isTimeoutMessage errorMessage = true →
  let s' := next (TransactionResponse requestId txHash (VerifyThrows errorMessage)) s in
  ∃ p', pendingPayments s' !! requestId = Some p'
        ∧ status p' = confirmed
        ∧ requestId ∈ confirmedPayments s'.
Proof.
  intros Hp Hh Ht s'. subst s'.
  unfold next, handle, onTransactionResponse, transactionVerifyError.
  unfold isTimeoutMessage in Ht.
  rewrite Hp, Hh, Ht. simpl.
  exists (set_status confirmed p).
  split; [apply lookup_insert_eq | split; [reflexivity | set_solver]].
Qed.

Lemma timeout_marks_confirmed_witness :
  let s' := next (soloCallback (Some "0xA")
                    (VerifyThrows "The request took too long and timed out."))
              (after soloRequested) in
  ∃ p', pendingPayments s' !! "play-alice-1" = Some p'
        ∧ status p' = confirmed
        ∧ "play-alice-1" ∈ confirmedPayments s'.
Proof.
  apply (timeout_marks_confirmed (after soloRequested) "play-alice-1" (Some "0xA") "0xA"
           "The request took too long and timed out."
           {| userId := "alice"; type := play; challengeId := None;
              paymentChannelId := "town"; status := pending |}).
  - vm_compute. reflexivity.
  - reflexivity.
  - vm_compute. reflexivity.
Defined.

(** [C9, fails on the code] Timeout as provisional success. Alice's solo
    payment is pending and the callback carries a hash. The verification
    waits for the receipt with a time limit of two minutes; the limit
    elapses and the call throws its timeout error, whose message starts with
    a capital: "Timed out while waiting for transaction with hash ... to be
    confirmed." The test of the [catch] block looks for "timeout" and
    "timed out" in lower case, finds neither, and takes the branch of a
    real verification error: the status becomes failed, not confirmed, the
    identifier does not join the confirmed set, the channel is told that the
    verification failed, and polling the payment answers failed. *)
Theorem wait_timeout_marks_failed :
  let s := after soloRequested in
  let e := soloCallback (Some "0xA") (VerifyThrows (waitTimeoutMessage "0xA")) in
  status <$> pendingPayments s !! "play-alice-1" = Some pending
  ∧ isTimeoutMessage (waitTimeoutMessage "0xA") = false
  ∧ status <$> pendingPayments (next e s) !! "play-alice-1" = Some failed
  ∧ confirmedPayments (next e s) = ∅
  ∧ trace e s = [SendMessage "town" MsgFailedToVerify]
  ∧ checkPayment (Some "play-alice-1") (next e s) = PaymentIs failed.
Proof.
  vm_compute. repeat split; reflexivity.
Qed.

(** Any other verification error marks the payment failed. *)
Lemma other_error_marks_failed s requestId txHash h errorMessage p :
  pendingPayments s !! requestId = Some p →
  Js.present txHash = Some h →
  isTimeoutMessage errorMessage = false →
  status <$> pendingPayments
               (next (TransactionResponse requestId txHash (VerifyThrows errorMessage)) s)
             !! requestId
  = Some failed.
Proof.
  intros Hp Hh Ht.
  unfold next, handle, onTransactionResponse, transactionVerifyError.
  unfold isTimeoutMessage in Ht.
  rewrite Hp, Hh, Ht. simpl. rewrite lookup_insert_eq. reflexivity.
Qed.

(** ** Settlement and the player records *)

Section Counters.

Lemma getOrCreatePlayerStats_lookup u name s u' :
  playerStats (fst (getOrCreatePlayerStats u name s)) !! u'
  = if decide (u = u')
    then Some (default (newPlayerStats name) (playerStats s !! u))
    else playerStats s !! u'.
Proof.
  unfold getOrCreatePlayerStats.
  destruct (playerStats s !! u) as [st|] eqn:E; simpl.
  - case_decide; [subst; exact E | reflexivity].
  - rewrite lookup_insert. case_decide; reflexivity.
Qed.

Lemma recordGame_counters score st :
  challengesWon (recordGame score st) = challengesWon st
  ∧ challengesLost (recordGame score st) = challengesLost st
  ∧ earnings (recordGame score st) = earnings st.
Proof. unfold recordGame. destruct (Js.gt _ _); repeat split. Qed.

Lemma updatePlayerStats_counters uid name score s u :
  wins (updatePlayerStats uid name score s) u = wins s u
  ∧ losses (updatePlayerStats uid name score s) u = losses s u
  ∧ earned (updatePlayerStats uid name score s) u = earned s u.
Proof.
  unfold wins, losses, earned, updatePlayerStats, getOrCreatePlayerStats.
  destruct (playerStats s !! uid) as [st|] eqn:E; cbn [playerStats with_playerStats];
    rewrite lookup_insert; case_decide; subst; try rewrite E;
    try rewrite lookup_insert_ne by assumption; cbn [fmap option_fmap option_map default];
    try destruct (recordGame_counters score st) as (-> & -> & ->);
    try destruct (recordGame_counters score (newPlayerStats name)) as (-> & -> & ->);
    auto.
Qed.

(** The counters after the two [getOrCreatePlayerStats] calls and the three
    updates of the settlement block, for two different identities. *)
Lemma settle_counters uid cid score ch cs ts prize s :
  winnerId ch cs ts ≠ loserId ch cs ts →
  let s' := fst (fst (settle uid cid score ch cs ts prize s)) in
  wins s' (winnerId ch cs ts) = wins s (winnerId ch cs ts) + 1
  ∧ earned s' (winnerId ch cs ts) = earned s (winnerId ch cs ts) + 396000
  ∧ losses s' (loserId ch cs ts) = losses s (loserId ch cs ts) + 1.
Proof.
  intros Hne. unfold settle, wins, earned, losses; simpl.
  set (w := winnerId ch cs ts) in *. set (l := loserId ch cs ts) in *.
  rewrite !lookup_alter, !getOrCreatePlayerStats_lookup.
  repeat case_decide; try congruence.
  destruct (playerStats s !! w), (playerStats s !! l); simpl; repeat split; lia.
Qed.

Lemma winner_loser_differ ch cs ts :
  challengerId ch ≠ targetId ch → winnerId ch cs ts ≠ loserId ch cs ts.
Proof.
  intros Hne. unfold loserId, winnerId.
  destruct (Js.gt cs ts).
  - rewrite String.eqb_refl. exact Hne.
  - destruct (String.eqb (targetId ch) (challengerId ch)) eqn:E; [|congruence].
    apply String.eqb_eq in E. congruence.
Qed.

End Counters.

(** [C10] Settlement does not depend on the disbursement. When a valid score
    request for a live challenge leaves both scores recorded (it is the
    second score), then for every outcome of [sendPrize], the failing ones
    included, the winner's win count goes up by one and the winner's
    earnings by the payout, the loser's loss count goes up by one, and the
    challenge is removed from the live set. *)
Theorem settlement_ignores_disbursement_failure
    s cid ch body now uid score timestamp cs ts prize :
  reachable s →
  pendingChallenges s !! cid = Some ch →
  Js.present (bodyUserId body) = Some uid →
  bodyScore body = Some score →
  bodyTimestamp body = Some timestamp →
  Js.present (bodyChallengeId body) = Some cid →
  ¬ refused body now →
  challengerScore (recordScore uid score ch) = Some cs →
  targetScore (recordScore uid score ch) = Some ts →
  let e := ScoreSubmission body now prize in
  let w := winnerId ch cs ts in
  let l := loserId ch cs ts in
  disbursements (trace e s) = [(w, 396000)]
  ∧ wins (next e s) w = wins s w + 1
  ∧ earned (next e s) w = earned s w + 396000
  ∧ losses (next e s) l = losses s l + 1
  ∧ pendingChallenges (next e s) !! cid = None.
Proof.
  intros Hr Hch Hu Hsc Hts Hc Hvalid Hcs Htsc e w l. subst e w l.
  destruct (reachable_challenges_ok s Hr cid ch Hch) as [_ Hne].
  assert (Hv1 : Js.lt score (Js.of_Z 0) || Js.gt score (Js.of_Z 100000) = false).
  { apply in_range; intros H; apply Hvalid; left; rewrite Hsc; tauto. }
  assert (Hv2 : Js.lt timestamp (Js.of_Z 0) || Js.gt timestamp (Js.of_Z (now + 60000))
                = false).
  { apply in_range; intros H; apply Hvalid; right; rewrite Hts; tauto. }
  unfold trace, next, handle.
  rewrite (onScore_challenge body now prize s uid score timestamp cid ch) by assumption.
  unfold scoreChallenge. rewrite Hcs, Htsc.
  set (s1 := if String.eqb uid (challengerId ch) || _ then _ else _).
  destruct (recordScore_ids uid score ch) as (Hi1 & Hi2 & _).
  assert (Hw : winnerId (recordScore uid score ch) cs ts = winnerId ch cs ts).
  { unfold winnerId. rewrite Hi1, Hi2. reflexivity. }
  assert (Hl : loserId (recordScore uid score ch) cs ts = loserId ch cs ts).
  { unfold loserId. rewrite Hw, Hi1, Hi2. reflexivity. }
  pose proof (settle_counters uid cid score (recordScore uid score ch) cs ts prize s1) as H.
  cbv zeta in H. rewrite Hw, Hl in H.
  destruct (H (winner_loser_differ ch cs ts Hne)) as (H1 & H2 & H3).
  assert (Hs1 : ∀ u, wins s1 u = wins s u ∧ losses s1 u = losses s u
                     ∧ earned s1 u = earned s u).
  { intros u.
    pose proof (updatePlayerStats_counters uid
                  (Js.or_default (bodyDisplayName body) "Player") score s u) as Hu'.
    subst s1.
    destruct (String.eqb uid (challengerId ch) || String.eqb uid (targetId ch));
      exact Hu'. }
  destruct (Hs1 (winnerId ch cs ts)) as (E1 & _ & E3).
  destruct (Hs1 (loserId ch cs ts)) as (_ & E2 & _).
  rewrite H1, H2, H3, E1, E2, E3.
  split; [|repeat split; try reflexivity].
  - unfold settle; simpl. rewrite Hw. reflexivity.
  - unfold settle; simpl. apply lookup_delete_eq.
Qed.

Lemma settlement_ignores_disbursement_failure_witness :
  let s := after (bothPaid ++ [aliceScores 800]) in
  let e := bobScores 650 ExecuteThrows in
  fst (sendPrize "alice" 396000 ExecuteThrows) = None
  ∧ disbursements (trace e s) = [("alice", 396000)]
  ∧ wins (next e s) "alice" = wins s "alice" + 1
  ∧ earned (next e s) "alice" = earned s "alice" + 396000
  ∧ losses (next e s) "bob" = losses s "bob" + 1
  ∧ pendingChallenges (next e s) !! "challenge-1" = None.
Proof.
  split; [reflexivity|].
  refine (settlement_ignores_disbursement_failure
            (after (bothPaid ++ [aliceScores 800])) "challenge-1"
            {| id := "challenge-1"; challengerId := "alice"; challengerName := "Player";
               targetId := "bob"; targetName := "Bob"; wager := 200000;
               challengerPaid := true; targetPaid := true;
               challengerScore := Some (Js.of_Z 800); targetScore := None;
               createdAt := 1; channelId := "town"; challengerTxHash := Some "0xA";
               targetTxHash := Some "0xB" |}
            (scoreBody "bob" (Js.of_Z 650) (Some "challenge-1")) 10 "bob"
            (Js.of_Z 650) (Js.of_Z 5) (Js.of_Z 800) (Js.of_Z 650) ExecuteThrows
            _ _ _ _ _ _ _ _ _).
  - apply reachable_after.
  - vm_compute. reflexivity.
  - reflexivity.
  - reflexivity.
  - reflexivity.
  - reflexivity.
  - intros [[H|H]|[H|H]]; vm_compute in H; discriminate H.
  - reflexivity.
  - reflexivity.
Defined.

(** ** The payment ledger *)

Section Ledger.

Lemma formComponents_payments user cid ch prizes cs : ∀ k s paymentId,
  pendingPayments (fst (formComponents user cid ch prizes k cs s)) !! paymentId
  = pendingPayments s !! paymentId
  ∨ (paymentId = "challenge-accept-" ++ cid
     ∧ ∃ p', pendingPayments (fst (formComponents user cid ch prizes k cs s)) !! paymentId
             = Some p'
             ∧ status p' = pending).
Proof.
  induction cs as [|c cs IH]; intros k s paymentId; simpl; [left; reflexivity|].
  destruct (isButton c); [|apply IH].
  destruct (String.eqb (componentId c) "accept").
  - specialize (IH k (with_pendingPayments
      <["challenge-accept-" ++ cid :=
         {| userId := user; type := challenge_acceptor; challengeId := Some cid;
            paymentChannelId := channelId ch; status := pending |}]> s) paymentId).
    destruct (formComponents _ _ _ _ _ _ _) as [s2 effs]; simpl in *.
    destruct IH as [IH|IH]; [|right; exact IH].
    rewrite IH, lookup_insert. case_decide; [right | left; reflexivity].
    split; [congruence|]. eexists; split; reflexivity.
  - destruct (String.eqb (componentId c) "decline"); [|apply IH].
    specialize (IH (S k) (with_pendingChallenges (delete cid) s) paymentId).
    destruct (formComponents _ _ _ _ _ _ _) as [s2 effs]; simpl in *. exact IH.
Qed.

Lemma settle_payments uid cid score ch cs ts prize s :
  pendingPayments (fst (fst (settle uid cid score ch cs ts prize s))) = pendingPayments s.
Proof.
  unfold settle, getOrCreatePlayerStats; simpl.
  destruct (playerStats s !! _); simpl;
    match goal with |- context [match ?x with _ => _ end] => destruct x end; reflexivity.
Qed.

Lemma onScore_payments body now prize s :
  pendingPayments (fst (fst (onScore body now prize s))) = pendingPayments s.
Proof.
  unfold onScore.
  destruct (Js.present (bodyUserId body)) as [uid|]; [|reflexivity].
  destruct (bodyScore body) as [score|]; [|reflexivity].
  destruct (bodyTimestamp body) as [timestamp|]; [|reflexivity].
  destruct (_ || _); [reflexivity|].
  destruct (_ || _); [reflexivity|].
  assert (H : ∀ ch cid, pendingPayments (fst (fst (scoreChallenge uid cid score ch prize
              (with_totalGamesPlayed (fun n => n + 1)
                 (updatePlayerStats uid (Js.or_default (bodyDisplayName body) "Player")
                    score s))))) = pendingPayments s).
  { intros ch cid. unfold scoreChallenge.
    destruct (challengerScore _); [destruct (targetScore _)|];
      rewrite ?settle_payments;
      destruct (String.eqb uid (challengerId ch) || String.eqb uid (targetId ch)); simpl;
      apply updatePlayerStats_payments. }
  destruct (Js.present (bodyChallengeId body)) as [cid|];
    [destruct (pendingChallenges _ !! cid) as [ch|]|];
    try apply H; simpl; apply updatePlayerStats_payments.
Qed.

End Ledger.





(** [C5, as amended] Repeated payment callback. A transaction response for
    a payment identifier that is not in the ledger sends nothing and leaves
    the state as it is. Verifying a challenge leg (initiator or acceptor) of
    a live challenge removes its entry from the ledger, so any later
    transaction response with the same identifier is such a no-op: it sends
    no second accept/decline form and no second message. No transaction
    response ever calls [sendPrize]. *)
Theorem callback_after_removal_is_noop :
  (∀ s requestId txHash v,
      pendingPayments s !! requestId = None →
      handle (TransactionResponse requestId txHash v) s = (s, [], NoResponse))
  ∧ (∀ s requestId h p cid ch txHash' v',
      pendingPayments s !! requestId = Some p →
      type p ≠ play →
      Js.present (challengeId p) = Some cid →
      pendingChallenges s !! cid = Some ch →
      Js.present (Some h) = Some h →
      let s1 := next (TransactionResponse requestId (Some h) (Receipt true)) s in
      pendingPayments s1 !! requestId = None
      ∧ handle (TransactionResponse requestId txHash' v') s1 = (s1, [], NoResponse))
  ∧ (∀ s requestId txHash v,
      disbursements (trace (TransactionResponse requestId txHash v) s) = []).
Proof.
  assert (Hnone : ∀ s requestId txHash v,
      pendingPayments s !! requestId = None →
      handle (TransactionResponse requestId txHash v) s = (s, [], NoResponse)).
  { intros s requestId txHash v H. unfold handle, onTransactionResponse.
    rewrite H. reflexivity. }
  split; [exact Hnone | split].
  - intros s requestId h p cid ch txHash' v' Hp Hty Hcid Hch Hh s1.
    assert (Hgone : pendingPayments s1 !! requestId = None).
    { subst s1. unfold next, handle, onTransactionResponse, transactionVerified.
      rewrite Hp, Hh, Hcid, Hch.
      destruct (type p); [congruence| |]; simpl; apply lookup_delete_eq. }
    split; [exact Hgone | apply Hnone, Hgone].
  - intros s requestId txHash v.
    unfold trace, handle, onTransactionResponse.
    destruct (pendingPayments s !! requestId) as [p|]; [|reflexivity].
    destruct (Js.present txHash) as [h|]; [|reflexivity].
    destruct v as [[|]|errorMessage]; [|reflexivity|].
    + unfold transactionVerified.
      destruct (type p), (Js.present (challengeId p)) as [cid|]; try reflexivity;
        destruct (pendingChallenges s !! cid); reflexivity.
    + unfold transactionVerifyError. destruct (_ || _); reflexivity.
Qed.

Lemma callback_after_removal_is_noop_witness :
  let s1 := next (TransactionResponse "challenge-init-challenge-1" (Some "0xA")
                    (Receipt true)) (after challengeIssued) in
  pendingPayments s1 !! "challenge-init-challenge-1" = None
  ∧ handle (TransactionResponse "challenge-init-challenge-1" (Some "0xA") (Receipt true))
      s1 = (s1, [], NoResponse).
Proof.
  refine (proj1 (proj2 callback_after_removal_is_noop) (after challengeIssued)
            "challenge-init-challenge-1" "0xA"
            {| userId := "alice"; type := challenge_initiator;
               challengeId := Some "challenge-1"; paymentChannelId := "town";
               status := pending |}
            "challenge-1"
            {| id := "challenge-1"; challengerId := "alice"; challengerName := "Player";
               targetId := "bob"; targetName := "Bob"; wager := 200000;
               challengerPaid := false; targetPaid := false;
               challengerScore := None; targetScore := None; createdAt := 1;
               channelId := "town"; challengerTxHash := None; targetTxHash := None |}
            (Some "0xA") (Receipt true) _ _ _ _ _).
  - vm_compute. reflexivity.
  - discriminate.
  - reflexivity.
  - vm_compute. reflexivity.
  - reflexivity.
Defined.

(** [C5, as stated, fails] A solo payment that has been confirmed stays in
    the ledger. The same callback again sends a second confirmation message
    and queues a second clean-up timer, so the state is not unchanged. *)
Lemma confirmed_solo_payment_confirmed_again :
  let s1 := after (soloRequested ++ [soloCallback (Some "0xA") (Receipt true)]) in
  let again := soloCallback (Some "0xA") (Receipt true) in
  status <$> pendingPayments s1 !! "play-alice-1" = Some confirmed
  ∧ trace again s1 = [SendMessage "town" (MsgSoloPaymentConfirmed "0xA")]
  ∧ timers s1 = [DeletePaymentAndConfirmed "play-alice-1"]
  ∧ timers (next again s1)
    = [DeletePaymentAndConfirmed "play-alice-1"; DeletePaymentAndConfirmed "play-alice-1"]
  ∧ next again s1 ≠ s1.
Proof.
  repeat split; try (vm_compute; reflexivity).
  intros H. apply (f_equal timers) in H. vm_compute in H. discriminate H.
Qed.

(** ** Where the handlers depart from the stated behaviour *)

(** [C2, fails] The score handler does not look at [challengerPaid] or
    [targetPaid]. A challenge that was only issued, with neither leg paid,
    receives a score from each side and is settled: the prize is disbursed
    and the challenge leaves the live set. *)
Theorem unpaid_challenge_is_settled :
  let s1 := after (challengeIssued ++ [aliceScores 800]) in
  let e := bobScores 650 prizeSent in
  (∃ ch, pendingChallenges s1 !! "challenge-1" = Some ch
         ∧ challengerPaid ch = false ∧ targetPaid ch = false)
  ∧ trace e s1
    = [SendPrize "alice" 396000 prizeSent;
       SendMessage "town"
         (MsgChallengeComplete "alice" "bob" (Some (Js.of_Z 800)) (Some (Js.of_Z 650))
            396000 (Some "0xprize"))]
  ∧ pendingChallenges (next e s1) !! "challenge-1" = None
  ∧ earned (next e s1) "alice" = 396000.
Proof.
  split; [|repeat split; vm_compute; reflexivity].
  eexists. split; [vm_compute; reflexivity|]. split; reflexivity.
Qed.

(** [C3, fails] With both legs paid and both players scoring 500, the
    target is credited with the win and the payout and the challenger with
    the loss, although neither score is greater than the other. *)
Theorem tie_goes_to_target :
  let s1 := after (bothPaid ++ [aliceScores 500]) in
  let e := bobScores 500 prizeSent in
  reply e s1
  = JsonChallengeComplete (Js.of_Z 500) true "bob" "alice"
      (Some (Js.of_Z 500)) (Some (Js.of_Z 500)) 396000
  ∧ disbursements (trace e s1) = [("bob", 396000)]
  ∧ wins (next e s1) "bob" = 1
  ∧ losses (next e s1) "alice" = 1
  ∧ Js.gt (Js.of_Z 500) (Js.of_Z 500) = false.
Proof. repeat split; vm_compute; reflexivity. Qed.

(** [C7, fails] The challenger has a recorded score of 800 and submits 100
    before the target has played: the recorded score becomes 100 and the
    request is answered as a first submission. *)
Theorem second_submission_overwrites :
  let s1 := after (bothPaid ++ [aliceScores 800]) in
  let e := aliceScores 100 in
  challengerScore <$> pendingChallenges s1 !! "challenge-1" = Some (Some (Js.of_Z 800))
  ∧ reply e s1 = JsonWaitingForOpponent (Js.of_Z 100)
  ∧ challengerScore <$> pendingChallenges (next e s1) !! "challenge-1"
    = Some (Some (Js.of_Z 100)).
Proof. repeat split; vm_compute; reflexivity. Qed.

(** ** Player records under the score route *)

Section PlayerRecords.

Lemma updatePlayerStats_lookup uid name score s u :
  playerStats (updatePlayerStats uid name score s) !! u
  = if decide (uid = u)
    then Some (recordGame score (default (newPlayerStats name) (playerStats s !! uid)))
    else playerStats s !! u.
Proof.
  unfold updatePlayerStats, getOrCreatePlayerStats.
  destruct (playerStats s !! uid) as [st|] eqn:E; cbn [playerStats with_playerStats];
    rewrite lookup_insert; case_decide; try reflexivity.
  rewrite lookup_insert_ne by assumption. reflexivity.
Qed.

Lemma updatePlayerStats_frame uid name score s :
  totalGamesPlayed (updatePlayerStats uid name score s) = totalGamesPlayed s
  ∧ jackpotPool (updatePlayerStats uid name score s) = jackpotPool s
  ∧ timers (updatePlayerStats uid name score s) = timers s
  ∧ confirmedPayments (updatePlayerStats uid name score s) = confirmedPayments s.
Proof.
  unfold updatePlayerStats, getOrCreatePlayerStats.
  destruct (playerStats s !! uid); repeat split.
Qed.

Lemma settle_lookup uid cid score ch cs ts prize s u :
  playerStats (fst (fst (settle uid cid score ch cs ts prize s))) !! u
  = if decide (winnerId ch cs ts = u ∨ loserId ch cs ts = u)
    then Some (tally None (bool_decide (winnerId ch cs ts = u))
                 (bool_decide (loserId ch cs ts = u))
                 (default
                    (newPlayerStats
                       (nameOf ch (if decide (winnerId ch cs ts = u)
                                   then winnerId ch cs ts else loserId ch cs ts)))
                    (playerStats s !! u)))
    else playerStats s !! u.
Proof.
  unfold settle.
  change (revenueSplit CHALLENGE_FEE) with (400000, 4000, 396000).
  cbn [fst snd sendPrize playerStats with_playerStats with_pendingChallenges].
  generalize (winnerId ch cs ts) as w, (loserId ch cs ts) as l. intros w l.
  rewrite !lookup_alter, !getOrCreatePlayerStats_lookup. unfold tally.
  destruct (decide (w = u)) as [->|Hw], (decide (l = u)) as [->|Hl];
    repeat case_decide; try tauto; try congruence;
    rewrite ?bool_decide_eq_true_2, ?bool_decide_eq_false_2 by (assumption || reflexivity);
    destruct (playerStats s !! u); reflexivity.
Qed.

Lemma settle_frame uid cid score ch cs ts prize s :
  totalGamesPlayed (fst (fst (settle uid cid score ch cs ts prize s))) = totalGamesPlayed s
  ∧ jackpotPool (fst (fst (settle uid cid score ch cs ts prize s))) = jackpotPool s
  ∧ timers (fst (fst (settle uid cid score ch cs ts prize s))) = timers s
  ∧ confirmedPayments (fst (fst (settle uid cid score ch cs ts prize s)))
    = confirmedPayments s.
Proof.
  unfold settle, getOrCreatePlayerStats; simpl.
  destruct (playerStats s !! _); simpl;
    match goal with |- context [match ?x with _ => _ end] => destruct x end;
    repeat split.
Qed.

End PlayerRecords.

Section ScoreRoute.

Lemma scoreChallenge_playerStats uid cid score ch prize s u :
  playerStats (fst (fst (scoreChallenge uid cid score ch prize s))) !! u
  = playerStats s !! u
  ∨ ∃ win loss name,
      playerStats (fst (fst (scoreChallenge uid cid score ch prize s))) !! u
      = Some (tally None win loss (default (newPlayerStats name) (playerStats s !! u))).
Proof.
  unfold scoreChallenge.
  set (s1 := if String.eqb uid (challengerId ch) || _ then _ else _).
  assert (Hs1 : playerStats s1 = playerStats s).
  { subst s1. destruct (_ || _); reflexivity. }
  destruct (challengerScore _) as [cs|]; [|left; simpl; congruence].
  destruct (targetScore _) as [ts|]; [|left; simpl; congruence].
  rewrite settle_lookup, Hs1.
  case_decide; [right; eauto | left; reflexivity].
Qed.

Lemma scoreChallenge_frame uid cid score ch prize s :
  totalGamesPlayed (fst (fst (scoreChallenge uid cid score ch prize s))) = totalGamesPlayed s
  ∧ jackpotPool (fst (fst (scoreChallenge uid cid score ch prize s))) = jackpotPool s
  ∧ timers (fst (fst (scoreChallenge uid cid score ch prize s))) = timers s
  ∧ confirmedPayments (fst (fst (scoreChallenge uid cid score ch prize s)))
    = confirmedPayments s.
Proof.
  unfold scoreChallenge.
  set (s1 := if String.eqb uid (challengerId ch) || _ then _ else _).
  assert (Hs1 : totalGamesPlayed s1 = totalGamesPlayed s ∧ jackpotPool s1 = jackpotPool s
                ∧ timers s1 = timers s ∧ confirmedPayments s1 = confirmedPayments s).
  { subst s1. destruct (_ || _); repeat split. }
  destruct Hs1 as (E1 & E2 & E3 & E4).
  destruct (challengerScore _) as [cs|]; [|simpl; auto].
  destruct (targetScore _) as [ts|]; [|simpl; auto].
  destruct (settle_frame uid cid score (recordScore uid score ch) cs ts prize s1)
    as (F1 & F2 & F3 & F4).
  rewrite F1, F2, F3, F4. auto.
Qed.

(** One run of the score route, seen from one player record: it is left
    alone, or it is the result of [tally] on the record (a new one when the
    player had none), with a game only for a score in range. *)
Lemma onScore_playerStats body now prize s u :
  playerStats (fst (fst (onScore body now prize s))) !! u = playerStats s !! u
  ∨ ∃ game win loss name,
      playerStats (fst (fst (onScore body now prize s))) !! u
      = Some (tally game win loss (default (newPlayerStats name) (playerStats s !! u)))
      ∧ (∀ score, game = Some score → inRange score).
Proof.
  unfold onScore.
  destruct (Js.present (bodyUserId body)) as [uid|]; [|left; reflexivity].
  destruct (bodyScore body) as [score|]; [|left; reflexivity].
  destruct (bodyTimestamp body) as [timestamp|]; [|left; reflexivity].
  destruct (Js.lt score (Js.of_Z 0) || Js.gt score (Js.of_Z 100000)) eqn:Hrange;
    [left; reflexivity|].
  destruct (Js.lt timestamp (Js.of_Z 0) || Js.gt timestamp (Js.of_Z (now + 60000)));
    [left; reflexivity|].
  set (name := Js.or_default (bodyDisplayName body) "Player").
  set (s2 := with_totalGamesPlayed _ _).
  assert (Hs2 : playerStats s2 !! u
                = if decide (uid = u)
                  then Some (recordGame score
                               (default (newPlayerStats name) (playerStats s !! uid)))
                  else playerStats s !! u).
  { subst s2. cbn [playerStats with_totalGamesPlayed]. apply updatePlayerStats_lookup. }
  assert (Hsolo : playerStats (fst (fst (soloPlay score s2))) !! u = playerStats s !! u
    ∨ ∃ game win loss name',
        playerStats (fst (fst (soloPlay score s2))) !! u
        = Some (tally game win loss
                  (default (newPlayerStats name') (playerStats s !! u)))
        ∧ (∀ score', game = Some score' → inRange score')).
  { unfold soloPlay. cbn [fst playerStats with_jackpotPool]. rewrite Hs2.
    case_decide; [subst; right | left; reflexivity].
    exists (Some score), false, false, name. split; [reflexivity|].
    intros score' [= <-]. exact Hrange. }
  destruct (Js.present (bodyChallengeId body)) as [cid|]; [|exact Hsolo].
  destruct (pendingChallenges s2 !! cid) as [ch|]; [|exact Hsolo].
  destruct (scoreChallenge_playerStats uid cid score ch prize s2 u)
    as [H|(win & loss & name' & H)]; rewrite H, Hs2.
  - case_decide; [subst; right | left; reflexivity].
    exists (Some score), false, false, name. split; [reflexivity|].
    intros score' [= <-]. exact Hrange.
  - right. case_decide; [subst|].
    + exists (Some score), win, loss, name. split; [reflexivity|].
      intros score' [= <-]. exact Hrange.
    + exists None, win, loss, name'. split; [reflexivity | discriminate].
Qed.


End ScoreRoute.

Section OtherEvents.

Lemma formComponents_aggregates user cid ch prizes cs : ∀ k s,
  totalGamesPlayed (fst (formComponents user cid ch prizes k cs s)) = totalGamesPlayed s
  ∧ jackpotPool (fst (formComponents user cid ch prizes k cs s)) = jackpotPool s
  ∧ timers (fst (formComponents user cid ch prizes k cs s)) = timers s
  ∧ confirmedPayments (fst (formComponents user cid ch prizes k cs s))
    = confirmedPayments s.
Proof.
  induction cs as [|c cs IH]; intros k s; simpl; [repeat split|].
  destruct (isButton c); [|apply IH].
  destruct (String.eqb (componentId c) "accept").
  - specialize (IH k (with_pendingPayments
      <["challenge-accept-" ++ cid :=
         {| userId := user; type := challenge_acceptor; challengeId := Some cid;
            paymentChannelId := channelId ch; status := pending |}]> s)).
    destruct (formComponents _ _ _ _ _ _ _) as [s2 effs]; simpl in *. exact IH.
  - destruct (String.eqb (componentId c) "decline"); [|apply IH].
    specialize (IH (S k) (with_pendingChallenges (delete cid) s)).
    destruct (formComponents _ _ _ _ _ _ _) as [s2 effs]; simpl in *. exact IH.
Qed.

(** Events other than a score submission leave the player records and the
    two aggregates alone. *)
Lemma other_events_records e s :
  (∀ body now prize, e ≠ ScoreSubmission body now prize) →
  playerStats (next e s) = playerStats s
  ∧ totalGamesPlayed (next e s) = totalGamesPlayed s
  ∧ jackpotPool (next e s) = jackpotPool s.
Proof.
  intros Hne. destruct e as [user channel mentions now | requestId txHash v
    | user requestId components prizes | user channel now | body now prize | k];
    unfold next, handle.
  - unfold onSlashChallenge. destruct mentions as [|m ms]; [repeat split|].
    destruct (String.eqb (mentionUserId m) user); repeat split.
  - unfold onTransactionResponse.
    destruct (pendingPayments s !! requestId) as [p|]; [|repeat split].
    destruct (Js.present txHash) as [h|]; [|repeat split].
    destruct v as [[|]|errorMessage]; [|repeat split|].
    + unfold transactionVerified.
      destruct (type p), (Js.present (challengeId p)) as [cid|]; try (repeat split; fail);
        destruct (pendingChallenges s !! cid); repeat split.
    + unfold transactionVerifyError. destruct (_ || _); repeat split.
  - unfold onFormResponse.
    destruct (Js.startsWith _ _); [|repeat split].
    destruct (pendingChallenges s !! _) as [ch|]; [|repeat split].
    destruct (String.eqb user (targetId ch)); [|repeat split].
    pose proof (formComponents_playerStats user
      (Js.replace "challenge-response-" "" requestId) ch prizes components 0%nat s) as H1.
    pose proof (formComponents_aggregates user
      (Js.replace "challenge-response-" "" requestId) ch prizes components 0%nat s)
      as (H2 & H3 & _).
    destruct (formComponents _ _ _ _ _ _ _) as [s' effs]; simpl in *. auto.
  - unfold onRequestPayment.
    destruct (Js.present user), (Js.present channel); repeat split.
  - exfalso. eapply Hne. reflexivity.
  - unfold onTimer. destruct (timers s !! k) as [[pid|pid]|]; repeat split.
Qed.

End OtherEvents.

Section RecordFacts.

Lemma Qlt_bool_false x y : Js.Qlt_bool x y = false → (y <= x)%Q.
Proof.
  unfold Js.Qlt_bool. intros H. apply Qnot_lt_le. rewrite Qlt_alt.
  destruct (x ?= y)%Q; congruence.
Qed.

Lemma Qlt_bool_true x y : Js.Qlt_bool x y = true → (x < y)%Q.
Proof.
  unfold Js.Qlt_bool. intros H. rewrite Qlt_alt. destruct (x ?= y)%Q; congruence.
Qed.

(** A score in range is a finite number between 0 and 100000, or NaN. *)
Lemma inRange_finite score :
  inRange score →
  score = Js.NaN ∨ ∃ q, score = Js.Finite q ∧ (0 <= q)%Q ∧ (q <= 100000)%Q.
Proof.
  unfold inRange. intros H. apply orb_false_iff in H as [H1 H2].
  destruct score as [|neg|q]; [left; reflexivity | | right].
  - destruct neg; simpl in *; discriminate.
  - exists q. split; [reflexivity|]. unfold Js.gt in H2. simpl in H1, H2.
    split; [apply (Qlt_bool_false _ _ H1) | apply (Qlt_bool_false _ _ H2)].
Qed.

Lemma stats_ok_new name : stats_ok (newPlayerStats name).
Proof.
  unfold stats_ok, newPlayerStats; simpl. repeat split; try lia.
  exists (inject_Z 0). repeat split; [apply Qle_refl | discriminate].
Qed.

Lemma stats_ok_recordGame score st :
  inRange score → stats_ok st → stats_ok (recordGame score st).
Proof.
  intros Hr ((b & Hb & Hb0 & Hb1) & He & Hg & Hw & Hl). unfold recordGame.
  cbn [bestScore]. rewrite Hb.
  destruct (Js.gt score (Js.Finite b)) eqn:Hgt; unfold stats_ok; simpl;
    (split; [|repeat split; (assumption || lia)]).
  - destruct (inRange_finite score Hr) as [->|(q & -> & Hq0 & Hq1)]; [discriminate|].
    exists q. auto.
  - exists b. auto.
Qed.

Lemma stats_ok_won st : stats_ok st → stats_ok (won 396000 st).
Proof.
  intros (Hb & He & Hg & Hw & Hl). unfold stats_ok, won; simpl.
  repeat split; try assumption; lia.
Qed.

Lemma stats_ok_lost st : stats_ok st → stats_ok (lost st).
Proof.
  intros (Hb & He & Hg & Hw & Hl). unfold stats_ok, lost; simpl.
  repeat split; try assumption; lia.
Qed.

Lemma stats_ok_tally game win loss st :
  (∀ score, game = Some score → inRange score) →
  stats_ok st → stats_ok (tally game win loss st).
Proof.
  intros Hg Hst. unfold tally.
  assert (H1 : stats_ok match game with Some score => recordGame score st | None => st end).
  { destruct game as [score|]; [apply stats_ok_recordGame; auto | exact Hst]. }
  destruct win, loss; auto using stats_ok_won, stats_ok_lost.
Qed.

Lemma grows_tally game win loss st :
  grows st (tally game win loss st)
  ∧ best_le (bestScore st) (bestScore (tally game win loss st)).
Proof.
  unfold tally, grows, best_le.
  destruct game as [score|]; [unfold recordGame; cbn [bestScore];
                              destruct (Js.gt score (bestScore st)) eqn:E|];
    destruct win, loss; simpl; repeat split; auto; lia.
Qed.

End RecordFacts.

(** ** Properties of the player records and the aggregates *)

Lemma reachable_stats_ok s u st :
  reachable s → playerStats s !! u = Some st → stats_ok st.
Proof.
  intros Hr. revert u st.
  induction Hr as [|e s Hr IH]; intros u st Hst.
  - change (playerStats initial) with (∅ : gmap string PlayerStats) in Hst.
    rewrite lookup_empty in Hst. discriminate.
  - destruct e as [user channel mentions now | requestId txHash v
      | user requestId components prizes | user channel now | body now prize | k].
    5: { unfold next, handle in Hst.
         match type of Hst with
         | playerStats (fst (fst (onScore _ _ _ ?s0))) !! _ = _ =>
             destruct (onScore_playerStats body now prize s0 u)
               as [H|(game & win & loss & name & H & Hg)]; rewrite H in Hst;
             [eapply IH, Hst|];
             injection Hst as <-; apply stats_ok_tally; [exact Hg|];
             destruct (playerStats s0 !! u) as [st0|] eqn:E; simpl;
             [eapply IH, E | apply stats_ok_new]
         end. }
    all: match type of Hst with
         | playerStats (next ?e ?s0) !! _ = _ =>
             destruct (other_events_records e s0) as (H & _); [discriminate|];
             rewrite H in Hst; eapply IH, Hst
         end.
Qed.

(** [X1] Player records stay sound. In every reachable state, every player
    record has a finite best score between 0 and 100000, earnings equal to
    396000 times its win count, and non-negative game, win and loss
    counts. *)
Theorem records_stay_sound s u st :
  reachable s → playerStats s !! u = Some st → stats_ok st.
Proof. apply reachable_stats_ok. Qed.

Lemma records_stay_sound_witness :
  stats_ok {| displayName := "alice"; gamesPlayed := 1; bestScore := Js.of_Z 800;
              totalScore := Js.Finite (800 # 1); challengesWon := 1;
              challengesLost := 0; earnings := 396000 |}.
Proof.
  apply (records_stay_sound
           (after (bothPaid ++ [aliceScores 800; bobScores 650 ExecuteThrows])) "alice").
  - apply reachable_after.
  - vm_compute. reflexivity.
Defined.

(** [X2] Player records only grow. Whatever the event, a player record that
    exists is still there afterwards, under the same display name, with no
    counter (games, wins, losses, earnings) lower than before and with the
    same or a greater best score. *)
Theorem records_only_grow s e u st :
  playerStats s !! u = Some st →
  ∃ st', playerStats (next e s) !! u = Some st'
         ∧ grows st st'
         ∧ best_le (bestScore st) (bestScore st').
Proof.
  intros Hst.
  assert (Hsame : grows st st ∧ best_le (bestScore st) (bestScore st)).
  { unfold grows, best_le. repeat split; auto; lia. }
  destruct e as [user channel mentions now | requestId txHash v
    | user requestId components prizes | user channel now | body now prize | k].
  5: { unfold next, handle.
       destruct (onScore_playerStats body now prize s u)
         as [H|(game & win & loss & name & H & _)]; rewrite H, Hst.
       - exists st. split; [reflexivity | exact Hsame].
       - simpl. eexists. split; [reflexivity | apply grows_tally]. }
  all: match goal with
       | |- ∃ _, playerStats (next ?e ?s0) !! _ = _ ∧ _ =>
           destruct (other_events_records e s0) as (H & _); [discriminate|];
           rewrite H, Hst; exists st; split; [reflexivity | exact Hsame]
       end.
Qed.

Lemma records_only_grow_witness :
  ∃ st', playerStats (next (aliceScores 100) (after (bothPaid ++ [aliceScores 800])))
           !! "alice" = Some st'
         ∧ grows {| displayName := "alice"; gamesPlayed := 1; bestScore := Js.of_Z 800;
                    totalScore := Js.Finite (800 # 1); challengesWon := 0;
                    challengesLost := 0; earnings := 0 |} st'
         ∧ best_le (Js.of_Z 800) (bestScore st').
Proof.
  apply (records_only_grow (after (bothPaid ++ [aliceScores 800])) (aliceScores 100)
           "alice"
           {| displayName := "alice"; gamesPlayed := 1; bestScore := Js.of_Z 800;
              totalScore := Js.Finite (800 # 1); challengesWon := 0;
              challengesLost := 0; earnings := 0 |}).
  vm_compute. reflexivity.
Defined.

(** [X3] Only score submissions touch the player records. The challenge
    command, transaction responses, form responses (accept and decline
    included), payment requests and timers leave every player record, the
    games-played counter and the jackpot pool exactly as they were. *)
Theorem only_scores_touch_records e s :
  (∀ body now prize, e ≠ ScoreSubmission body now prize) →
  playerStats (next e s) = playerStats s
  ∧ totalGamesPlayed (next e s) = totalGamesPlayed s
  ∧ jackpotPool (next e s) = jackpotPool s.
Proof. apply other_events_records. Qed.

Lemma only_scores_touch_records_witness :
  playerStats (next (declineByBob (fun _ => ExecuteThrows)) (after (firstn 2 bothPaid)))
  = playerStats (after (firstn 2 bothPaid))
  ∧ totalGamesPlayed (next (declineByBob (fun _ => ExecuteThrows))
                        (after (firstn 2 bothPaid)))
    = totalGamesPlayed (after (firstn 2 bothPaid))
  ∧ jackpotPool (next (declineByBob (fun _ => ExecuteThrows)) (after (firstn 2 bothPaid)))
    = jackpotPool (after (firstn 2 bothPaid)).
Proof.
  apply (only_scores_touch_records (declineByBob (fun _ => ExecuteThrows))).
  discriminate.
Defined.



(** ** How a live challenge changes *)

Section ChallengeChanges.

Lemma recordScore_fields uid score ch :
  id (recordScore uid score ch) = id ch
  ∧ challengerName (recordScore uid score ch) = challengerName ch
  ∧ targetName (recordScore uid score ch) = targetName ch
  ∧ channelId (recordScore uid score ch) = channelId ch
  ∧ challengerTxHash (recordScore uid score ch) = challengerTxHash ch
  ∧ targetTxHash (recordScore uid score ch) = targetTxHash ch.
Proof.
  unfold recordScore.
  destruct (String.eqb uid (challengerId ch)); [repeat split|].
  destruct (String.eqb uid (targetId ch)); repeat split.
Qed.

Lemma recordScore_stranger uid score ch :
  uid ≠ challengerId ch → uid ≠ targetId ch → recordScore uid score ch = ch.
Proof.
  intros H1 H2. unfold recordScore.
  apply String.eqb_neq in H1, H2. rewrite H1, H2. reflexivity.
Qed.

Lemma scoreChallenge_challenges uid cid0 score ch0 prize s cid ch' :
  pendingChallenges s !! cid0 = Some ch0 →
  pendingChallenges (fst (fst (scoreChallenge uid cid0 score ch0 prize s))) !! cid
  = Some ch' →
  pendingChallenges s !! cid = Some ch'
  ∨ (cid = cid0 ∧ ch' = recordScore uid score ch0
     ∧ (challengerScore ch' = None ∨ targetScore ch' = None)).
Proof.
  intros Hch0. unfold scoreChallenge.
  set (s1 := if String.eqb uid (challengerId ch0) || _ then _ else _).
  assert (Hs1 : ∀ c, pendingChallenges s1 !! c
                     = if decide (cid0 = c) then Some (recordScore uid score ch0)
                       else pendingChallenges s !! c).
  { intros c. subst s1.
    destruct (String.eqb uid (challengerId ch0)) eqn:E1; simpl.
    - rewrite lookup_insert. reflexivity.
    - destruct (String.eqb uid (targetId ch0)) eqn:E2; simpl.
      + rewrite lookup_insert. reflexivity.
      + apply String.eqb_neq in E1, E2.
        rewrite (recordScore_stranger uid score ch0 E1 E2).
        case_decide; congruence. }
  destruct (challengerScore (recordScore uid score ch0)) as [cs|] eqn:Hcs.
  - destruct (targetScore (recordScore uid score ch0)) as [ts|] eqn:Hts.
    + unfold settle; simpl.
      match goal with |- context [getOrCreatePlayerStats ?a ?b (fst ?x)] =>
        assert (Hp : pendingChallenges (fst (getOrCreatePlayerStats a b (fst x)))
                     = pendingChallenges s1)
      end.
      { unfold getOrCreatePlayerStats.
        destruct (playerStats s1 !! _); simpl;
          match goal with |- context [match ?x with _ => _ end] => destruct x end;
          reflexivity. }
      rewrite Hp, lookup_delete. case_decide; [discriminate|].
      rewrite Hs1. rewrite decide_False by assumption. auto.
    + simpl. rewrite Hs1. case_decide; [|auto].
      intros [= <-]. right. subst. auto.
  - simpl. rewrite Hs1. case_decide; [|auto].
    intros [= <-]. right. subst. auto.
Qed.

(** Every challenge of the live set after an event is one that was there
    before, changed in one of the ways of [changes], or is the challenge the
    [/challenge] command has just filed. *)
Lemma next_challenge_changes e s cid ch' :
  pendingChallenges (next e s) !! cid = Some ch' →
  (∃ ch, pendingChallenges s !! cid = Some ch ∧ changes s cid ch e ch')
  ∨ (∃ user channel mentions now,
       e = SlashChallenge user channel mentions now
       ∧ cid = "challenge-" ++ Js.decimal now
       ∧ isFresh user cid ch').
Proof.
  assert (Hkeep : pendingChallenges s !! cid = Some ch' →
    (∃ ch, pendingChallenges s !! cid = Some ch ∧ changes s cid ch e ch')
    ∨ (∃ user channel mentions now,
         e = SlashChallenge user channel mentions now
         ∧ cid = "challenge-" ++ Js.decimal now
         ∧ isFresh user cid ch')).
  { intros H. left. exists ch'. split; [exact H | constructor]. }
  destruct e as [user channel mentions now | requestId txHash v
    | user requestId components prizes | user channel now | body now prize | k];
    unfold next, handle.
  - unfold onSlashChallenge.
    destruct mentions as [|m ms]; [exact Hkeep|].
    destruct (String.eqb (mentionUserId m) user) eqn:E; [exact Hkeep|].
    simpl. rewrite lookup_insert. case_decide; [|exact Hkeep].
    intros [= <-]. right. exists user, channel, (m :: ms), now.
    split; [reflexivity|]. split; [congruence|].
    apply String.eqb_neq in E. unfold isFresh; simpl. repeat split; congruence.
  - unfold onTransactionResponse.
    destruct (pendingPayments s !! requestId) as [p|] eqn:Hp; [|exact Hkeep].
    destruct (Js.present txHash) as [h|] eqn:Hh; [|exact Hkeep].
    destruct v as [[|]|errorMessage]; [|exact Hkeep|].
    + unfold transactionVerified.
      destruct (type p) eqn:Hty, (Js.present (challengeId p)) as [cid0|] eqn:Hc;
        try exact Hkeep;
        destruct (pendingChallenges s !! cid0) as [ch0|] eqn:Hch0; try exact Hkeep;
        simpl; rewrite lookup_insert; (case_decide; [|exact Hkeep]);
        intros [= <-]; subst; left; exists ch0; (split; [exact Hch0|]).
      * eapply changes_challengerPaid; eassumption.
      * eapply changes_targetPaid; eassumption.
    + unfold transactionVerifyError. destruct (_ || _); exact Hkeep.
  - unfold onFormResponse.
    destruct (Js.startsWith _ _); [|exact Hkeep].
    destruct (pendingChallenges s !! Js.replace "challenge-response-" "" requestId)
      as [ch|]; [|exact Hkeep].
    destruct (String.eqb user (targetId ch)); [|exact Hkeep].
    pose proof (formComponents_challenges user
      (Js.replace "challenge-response-" "" requestId) ch prizes components 0%nat s) as H.
    destruct (formComponents _ _ _ _ _ _ _) as [s' effs]; simpl in *. rewrite H.
    destruct (existsb isDecline components); [|exact Hkeep].
    rewrite lookup_delete. case_decide; [discriminate | exact Hkeep].
  - unfold onRequestPayment.
    destruct (Js.present user), (Js.present channel); exact Hkeep.
  - unfold onScore.
    destruct (Js.present (bodyUserId body)) as [uid|] eqn:Hu; [|exact Hkeep].
    destruct (bodyScore body) as [score|] eqn:Hs; [|exact Hkeep].
    destruct (bodyTimestamp body) as [timestamp|]; [|exact Hkeep].
    destruct (Js.lt score (Js.of_Z 0) || Js.gt score (Js.of_Z 100000)) eqn:Hrange;
      [exact Hkeep|].
    destruct (Js.lt timestamp (Js.of_Z 0) || Js.gt timestamp (Js.of_Z (now + 60000)));
      [exact Hkeep|].
    set (s2 := with_totalGamesPlayed _ _).
    assert (Hs2 : pendingChallenges s2 = pendingChallenges s).
    { subst s2. simpl. apply updatePlayerStats_challenges. }
    assert (Hsolo : pendingChallenges (fst (fst (soloPlay score s2))) !! cid = Some ch' →
      (∃ ch, pendingChallenges s !! cid = Some ch
             ∧ changes s cid ch (ScoreSubmission body now prize) ch')
      ∨ (∃ user channel mentions now0,
           ScoreSubmission body now prize = SlashChallenge user channel mentions now0
           ∧ cid = "challenge-" ++ Js.decimal now0
           ∧ isFresh user cid ch')).
    { change (pendingChallenges (fst (fst (soloPlay score s2))))
        with (pendingChallenges s2).
      rewrite Hs2. exact Hkeep. }
    destruct (Js.present (bodyChallengeId body)) as [cid0|] eqn:Hc; [|exact Hsolo].
    destruct (pendingChallenges s2 !! cid0) as [ch0|] eqn:Hch0; [|exact Hsolo].
    intros H.
    destruct (scoreChallenge_challenges uid cid0 score ch0 prize s2 cid ch' Hch0 H)
      as [H'|(-> & -> & Hnot)].
    + rewrite Hs2 in H'. exact (Hkeep H').
    + left. exists ch0. rewrite Hs2 in Hch0. split; [exact Hch0|].
      eapply changes_score; eassumption.
  - unfold onTimer. destruct (timers s !! k) as [[pid|pid]|]; exact Hkeep.
Qed.

Lemma challenge_wf_changes s cid ch e ch' :
  changes s cid ch e ch' → challenge_wf cid ch → challenge_wf cid ch'.
Proof.
  intros Hc [Hid Hsc]. destruct Hc; unfold challenge_wf; simpl; auto.
  destruct (recordScore_fields uid score ch) as (-> & _). auto.
Qed.

Lemma reachable_challenge_wf s cid ch :
  reachable s → pendingChallenges s !! cid = Some ch → challenge_wf cid ch.
Proof.
  intros Hr. revert cid ch. induction Hr as [|e s0 Hr IH]; intros cid ch H.
  - change (pendingChallenges initial) with (∅ : gmap string PendingChallenge) in H.
    rewrite lookup_empty in H. discriminate.
  - destruct (next_challenge_changes e s0 cid ch H)
      as [(ch0 & H0 & Hc)|(user & channel & mentions & now & _ & _ & Hf)].
    + eapply challenge_wf_changes; [exact Hc | eapply IH, H0].
    + destruct Hf as (Hid & _ & _ & _ & _ & _ & Hcs & _). split; auto.
Qed.

End ChallengeChanges.

(** [X5] Paid flags need a verified receipt. If an event turns
    [challengerPaid] of a live challenge from false to true, the event is a
    transaction response that carries a hash, whose receipt has status
    success, for a ledger entry of type challenge-initiator that names this
    challenge; likewise [targetPaid] and a challenge-acceptor entry. In
    particular a verification timeout never sets a paid flag. *)
Theorem paid_flags_need_verified_receipt s e cid ch ch' :
  pendingChallenges s !! cid = Some ch →
  pendingChallenges (next e s) !! cid = Some ch' →
  (challengerPaid ch = false → challengerPaid ch' = true →
   ∃ requestId txHash h p,
     e = TransactionResponse requestId txHash (Receipt true)
     ∧ Js.present txHash = Some h
     ∧ pendingPayments s !! requestId = Some p
     ∧ type p = challenge_initiator
     ∧ Js.present (challengeId p) = Some cid
     ∧ challengerTxHash ch' = Some h)
  ∧ (targetPaid ch = false → targetPaid ch' = true →
     ∃ requestId txHash h p,
       e = TransactionResponse requestId txHash (Receipt true)
       ∧ Js.present txHash = Some h
       ∧ pendingPayments s !! requestId = Some p
       ∧ type p = challenge_acceptor
       ∧ Js.present (challengeId p) = Some cid
       ∧ targetTxHash ch' = Some h).
Proof.
  intros Hch Hch'.
  destruct (next_challenge_changes e s cid ch' Hch')
    as [(ch0 & H0 & Hc)|(user & channel & mentions & now & _ & _ & Hf)].
  - rewrite Hch in H0. injection H0 as <-.
    destruct Hc as [e | requestId txHash h p Hh Hp Hty Hcid
                   | requestId txHash h p Hh Hp Hty Hcid
                   | body now prize uid score Hu Hs Hr Hcid Hnot].
    + split; congruence.
    + split; [|simpl; congruence].
      intros _ _. exists requestId, txHash, h, p.
      repeat split; (assumption || reflexivity).
    + split; [simpl; congruence|].
      intros _ _. exists requestId, txHash, h, p.
      repeat split; (assumption || reflexivity).
    + destruct (recordScore_ids uid score ch) as (_ & _ & _ & -> & ->).
      split; congruence.
  - destruct Hf as (_ & _ & _ & _ & H1 & H2 & _). split; congruence.
Qed.

Lemma paid_flags_need_verified_receipt_witness :
  ∃ requestId txHash h p,
    TransactionResponse "challenge-init-challenge-1" (Some "0xA") (Receipt true)
    = TransactionResponse requestId txHash (Receipt true)
    ∧ Js.present txHash = Some h
    ∧ pendingPayments (after challengeIssued) !! requestId = Some p
    ∧ type p = challenge_initiator
    ∧ Js.present (challengeId p) = Some "challenge-1"
    ∧ Some "0xA" = Some h.
Proof.
  refine (proj1 (paid_flags_need_verified_receipt (after challengeIssued)
            (TransactionResponse "challenge-init-challenge-1" (Some "0xA") (Receipt true))
            "challenge-1"
            {| id := "challenge-1"; challengerId := "alice"; challengerName := "Player";
               targetId := "bob"; targetName := "Bob"; wager := 200000;
               challengerPaid := false; targetPaid := false;
               challengerScore := None; targetScore := None; createdAt := 1;
               channelId := "town"; challengerTxHash := None; targetTxHash := None |}
            {| id := "challenge-1"; challengerId := "alice"; challengerName := "Player";
               targetId := "bob"; targetName := "Bob"; wager := 200000;
               challengerPaid := true; targetPaid := false;
               challengerScore := None; targetScore := None; createdAt := 1;
               channelId := "town"; challengerTxHash := Some "0xA";
               targetTxHash := None |} _ _) _ _).
  - vm_compute. reflexivity.
  - vm_compute. reflexivity.
  - reflexivity.
  - reflexivity.
Defined.

(** [X6] The terms of a live challenge are fixed. Under every event except a
    [/challenge] command that files the same identifier again, a challenge
    that stays in the live set keeps its identifier, both parties and their
    names, its wager and its channel, and a paid flag that is true stays
    true. *)
Theorem live_challenge_terms_fixed s e cid ch ch' :
  pendingChallenges s !! cid = Some ch →
  pendingChallenges (next e s) !! cid = Some ch' →
  (∀ user channel mentions now,
     e = SlashChallenge user channel mentions now → cid ≠ "challenge-" ++ Js.decimal now) →
  id ch' = id ch
  ∧ challengerId ch' = challengerId ch ∧ targetId ch' = targetId ch
  ∧ challengerName ch' = challengerName ch ∧ targetName ch' = targetName ch
  ∧ wager ch' = wager ch ∧ channelId ch' = channelId ch
  ∧ (challengerPaid ch = true → challengerPaid ch' = true)
  ∧ (targetPaid ch = true → targetPaid ch' = true).
Proof.
  intros Hch Hch' Hnot.
  destruct (next_challenge_changes e s cid ch' Hch')
    as [(ch0 & H0 & Hc)|(user & channel & mentions & now & -> & Hcid & _)].
  - rewrite Hch in H0. injection H0 as <-.
    destruct Hc as [e | requestId txHash h p Hh Hp Hty Hcid
                   | requestId txHash h p Hh Hp Hty Hcid
                   | body now prize uid score Hu Hs Hr Hcid Hsc];
      try (simpl; repeat split; auto; fail).
    destruct (recordScore_ids uid score ch) as (-> & -> & -> & -> & ->).
    destruct (recordScore_fields uid score ch) as (-> & -> & -> & -> & _).
    repeat split; auto.
  - exfalso. eapply Hnot; [reflexivity | exact Hcid].
Qed.

Lemma live_challenge_terms_fixed_witness :
  ∃ ch', pendingChallenges (next (aliceScores 800) (after bothPaid)) !! "challenge-1"
         = Some ch'
         ∧ id ch' = "challenge-1"
         ∧ challengerId ch' = "alice" ∧ targetId ch' = "bob"
         ∧ challengerName ch' = "Player" ∧ targetName ch' = "Bob"
         ∧ wager ch' = 200000 ∧ channelId ch' = "town"
         ∧ (true = true → challengerPaid ch' = true)
         ∧ (true = true → targetPaid ch' = true).
Proof.
  eexists. split; [vm_compute; reflexivity|].
  refine (live_challenge_terms_fixed (after bothPaid) (aliceScores 800) "challenge-1"
            {| id := "challenge-1"; challengerId := "alice"; challengerName := "Player";
               targetId := "bob"; targetName := "Bob"; wager := 200000;
               challengerPaid := true; targetPaid := true;
               challengerScore := None; targetScore := None; createdAt := 1;
               channelId := "town"; challengerTxHash := Some "0xA";
               targetTxHash := Some "0xB" |} _ _ _ _).
  - vm_compute. reflexivity.
  - vm_compute. reflexivity.
  - discriminate.
Defined.

(** [X7] Shape of the live set. In every reachable state each live challenge
    is filed under its own identifier, has the challenge fee as its wager,
    and opposes two different identities. *)
Theorem live_challenges_well_formed s cid ch :
  reachable s →
  pendingChallenges s !! cid = Some ch →
  id ch = cid
  ∧ wager ch = CHALLENGE_FEE
  ∧ challengerId ch ≠ targetId ch.
Proof.
  intros Hr Hch.
  destruct (reachable_challenge_wf s cid ch Hr Hch) as [Hid _].
  destruct (reachable_challenges_ok s Hr cid ch Hch) as [Hw Hne].
  auto.
Qed.

Lemma live_challenges_well_formed_witness :
  id {| id := "challenge-1"; challengerId := "alice"; challengerName := "Player";
        targetId := "bob"; targetName := "Bob"; wager := 200000;
        challengerPaid := true; targetPaid := true;
        challengerScore := Some (Js.of_Z 800); targetScore := None; createdAt := 1;
        channelId := "town"; challengerTxHash := Some "0xA";
        targetTxHash := Some "0xB" |} = "challenge-1"
  ∧ 200000 = CHALLENGE_FEE
  ∧ "alice" ≠ "bob".
Proof.
  apply (live_challenges_well_formed (after (bothPaid ++ [aliceScores 800]))
           "challenge-1").
  - apply reachable_after.
  - vm_compute. reflexivity.
Defined.

Section ScoreCases.

Lemma lt_asym a b : Js.lt a b = true → Js.lt b a = false.
Proof.
  destruct a as [|s|x], b as [|t|y]; simpl; try discriminate; try reflexivity.
  - destruct s, t; simpl; congruence.
  - destruct s; simpl; congruence.
  - destruct t; simpl; congruence.
  - unfold Js.Qlt_bool. rewrite <- (Qcompare_antisym x y).
    destruct (x ?= y)%Q; simpl; congruence.
Qed.

(** The answer "challenge complete", taken apart. *)
Lemma onScore_settles body now prize s sc isW w l ws ls p :
  reply (ScoreSubmission body now prize) s = JsonChallengeComplete sc isW w l ws ls p →
  ∃ uid cid ch0 cs ts,
    Js.present (bodyUserId body) = Some uid
    ∧ bodyScore body = Some sc
    ∧ Js.present (bodyChallengeId body) = Some cid
    ∧ pendingChallenges s !! cid = Some ch0
    ∧ challengerScore (recordScore uid sc ch0) = Some cs
    ∧ targetScore (recordScore uid sc ch0) = Some ts
    ∧ w = winnerId ch0 cs ts ∧ l = loserId ch0 cs ts
    ∧ isW = String.eqb uid w
    ∧ ws = scoreOf (recordScore uid sc ch0) w
    ∧ ls = scoreOf (recordScore uid sc ch0) l
    ∧ p = 396000.
Proof.
  unfold reply, handle, onScore.
  destruct (Js.present (bodyUserId body)) as [uid|]; [|discriminate].
  destruct (bodyScore body) as [score|]; [|discriminate].
  destruct (bodyTimestamp body) as [timestamp|]; [|discriminate].
  destruct (Js.lt score (Js.of_Z 0) || Js.gt score (Js.of_Z 100000)); [discriminate|].
  destruct (Js.lt timestamp (Js.of_Z 0) || Js.gt timestamp (Js.of_Z (now + 60000)));
    [discriminate|].
  destruct (Js.present (bodyChallengeId body)) as [cid|]; [|discriminate].
  simpl. rewrite updatePlayerStats_challenges.
  destruct (pendingChallenges s !! cid) as [ch|] eqn:Hch; [|discriminate].
  unfold scoreChallenge.
  destruct (challengerScore (recordScore uid score ch)) as [cs|] eqn:Hcs; [|discriminate].
  destruct (targetScore (recordScore uid score ch)) as [ts|] eqn:Hts; [|discriminate].
  unfold settle. simpl. intros [= <- <- <- <- <- <- <-].
  destruct (recordScore_ids uid score ch) as (Hi1 & Hi2 & _).
  assert (Hw : winnerId (recordScore uid score ch) cs ts = winnerId ch cs ts).
  { unfold winnerId. rewrite Hi1, Hi2. reflexivity. }
  assert (Hl : loserId (recordScore uid score ch) cs ts = loserId ch cs ts).
  { unfold loserId. rewrite Hw, Hi1, Hi2. reflexivity. }
  exists uid, cid, ch, cs, ts. rewrite Hw, Hl. repeat split; auto.
Qed.

(** A request that passes validation always counts a game for the
    submitter, whatever else the route does with it. *)
Lemma onScore_submitter body now prize s uid score timestamp :
  Js.present (bodyUserId body) = Some uid →
  bodyScore body = Some score →
  bodyTimestamp body = Some timestamp →
  ¬ refused body now →
  ∃ win loss,
    playerStats (next (ScoreSubmission body now prize) s) !! uid
    = Some (tally (Some score) win loss
              (default (newPlayerStats (Js.or_default (bodyDisplayName body) "Player"))
                 (playerStats s !! uid))).
Proof.
  intros Hu Hsc Hts Hvalid.
  assert (Hv1 : Js.lt score (Js.of_Z 0) || Js.gt score (Js.of_Z 100000) = false).
  { apply in_range; intros H; apply Hvalid; left; rewrite Hsc; tauto. }
  assert (Hv2 : Js.lt timestamp (Js.of_Z 0) || Js.gt timestamp (Js.of_Z (now + 60000))
                = false).
  { apply in_range; intros H; apply Hvalid; right; rewrite Hts; tauto. }
  unfold next, handle, onScore. rewrite Hu, Hsc, Hts, Hv1, Hv2.
  set (name := Js.or_default (bodyDisplayName body) "Player").
  set (s2 := with_totalGamesPlayed _ _).
  assert (Hs2 : playerStats s2 !! uid
                = Some (recordGame score
                          (default (newPlayerStats name) (playerStats s !! uid)))).
  { subst s2. cbn [playerStats with_totalGamesPlayed].
    rewrite updatePlayerStats_lookup, decide_True by reflexivity. reflexivity. }
  assert (Hsolo : ∃ win loss,
    playerStats (fst (fst (soloPlay score s2))) !! uid
    = Some (tally (Some score) win loss
              (default (newPlayerStats name) (playerStats s !! uid)))).
  { exists false, false. exact Hs2. }
  destruct (Js.present (bodyChallengeId body)) as [cid|]; [|exact Hsolo].
  destruct (pendingChallenges s2 !! cid) as [ch|]; [|exact Hsolo].
  destruct (scoreChallenge_playerStats uid cid score ch prize s2 uid)
    as [H|(win & loss & name' & H)]; rewrite H, Hs2.
  - exists false, false. reflexivity.
  - exists win, loss. reflexivity.
Qed.

End ScoreCases.

(** [X8] What triggers a settlement. In every state, when the score route
    answers "challenge complete", the request names a live challenge, and
    either the request came from one of its two parties whose own score was
    not yet recorded while the opponent's was (the second score), or the
    challenge held both scores already before the request. *)
Theorem settlement_needs_second_score s body now prize sc isW w l ws ls p :
  reply (ScoreSubmission body now prize) s = JsonChallengeComplete sc isW w l ws ls p →
  ∃ uid cid ch,
    Js.present (bodyUserId body) = Some uid
    ∧ Js.present (bodyChallengeId body) = Some cid
    ∧ pendingChallenges s !! cid = Some ch
    ∧ ((∃ other, uid = challengerId ch ∧ challengerScore ch = None
                 ∧ targetScore ch = Some other)
       ∨ (∃ other, uid = targetId ch ∧ targetScore ch = None
                   ∧ challengerScore ch = Some other)
       ∨ (∃ a b, challengerScore ch = Some a ∧ targetScore ch = Some b)).
Proof.
  intros H.
  destruct (onScore_settles _ _ _ _ _ _ _ _ _ _ _ H)
    as (uid & cid & ch & cs & ts & Hu & _ & Hc & Hch & Hcs & Hts & _).
  exists uid, cid, ch. repeat split; auto.
  unfold recordScore in Hcs, Hts.
  destruct (String.eqb uid (challengerId ch)) eqn:E1.
  - apply String.eqb_eq in E1. simpl in Hts.
    destruct (challengerScore ch) as [a|] eqn:Ea.
    + right; right. exists a, ts. auto.
    + left. exists ts. auto.
  - destruct (String.eqb uid (targetId ch)) eqn:E2.
    + apply String.eqb_eq in E2. simpl in Hcs.
      destruct (targetScore ch) as [b|] eqn:Eb.
      * right; right. exists cs, b. auto.
      * right; left. exists cs. auto.
    + right; right. exists cs, ts. auto.
Qed.

Lemma settlement_needs_second_score_witness :
  ∃ uid cid ch,
    Js.present (bodyUserId (scoreBody "bob" (Js.of_Z 650) (Some "challenge-1")))
    = Some uid
    ∧ Js.present (bodyChallengeId (scoreBody "bob" (Js.of_Z 650) (Some "challenge-1")))
      = Some cid
    ∧ pendingChallenges (after (bothPaid ++ [aliceScores 800])) !! cid = Some ch
    ∧ ((∃ other, uid = challengerId ch ∧ challengerScore ch = None
                 ∧ targetScore ch = Some other)
       ∨ (∃ other, uid = targetId ch ∧ targetScore ch = None
                   ∧ challengerScore ch = Some other)
       ∨ (∃ a b, challengerScore ch = Some a ∧ targetScore ch = Some b)).
Proof.
  eapply (settlement_needs_second_score (after (bothPaid ++ [aliceScores 800]))
            (scoreBody "bob" (Js.of_Z 650) (Some "challenge-1")) 10 prizeSent).
  vm_compute. reflexivity.
Defined.

(** [X9] What a settlement reports. In a reachable state, the winner and
    the loser named in the answer "challenge complete" are the two parties of
    the live challenge, one each; both reported scores are present; the
    loser's score is never greater than the winner's; the prize is 396000;
    and [isWinner] tells whether the submitter is the winner. *)
Theorem settlement_report s body now prize sc isW w l ws ls p :
  reachable s →
  reply (ScoreSubmission body now prize) s = JsonChallengeComplete sc isW w l ws ls p →
  ∃ uid cid ch a b,
    Js.present (bodyUserId body) = Some uid
    ∧ pendingChallenges s !! cid = Some ch
    ∧ ((w = challengerId ch ∧ l = targetId ch) ∨ (w = targetId ch ∧ l = challengerId ch))
    ∧ w ≠ l
    ∧ ws = Some a ∧ ls = Some b ∧ Js.gt b a = false
    ∧ isW = String.eqb uid w
    ∧ p = 396000.
Proof.
  intros Hr H.
  destruct (onScore_settles _ _ _ _ _ _ _ _ _ _ _ H)
    as (uid & cid & ch & cs & ts & Hu & _ & Hc & Hch & Hcs & Hts
        & -> & -> & -> & -> & -> & ->).
  destruct (reachable_challenges_ok s Hr cid ch Hch) as [_ Hne].
  destruct (recordScore_ids uid sc ch) as (Hi1 & Hi2 & _).
  assert (Hneq : String.eqb (targetId ch) (challengerId ch) = false).
  { apply String.eqb_neq. congruence. }
  unfold scoreOf, loserId, winnerId. rewrite Hi1.
  destruct (Js.gt cs ts) eqn:Hgt.
  - rewrite String.eqb_refl, Hneq, Hcs, Hts.
    exists uid, cid, ch, cs, ts. repeat split; auto.
    apply lt_asym. exact Hgt.
  - rewrite Hneq, String.eqb_refl, Hcs, Hts.
    exists uid, cid, ch, ts, cs. repeat split; auto.
Qed.

Lemma settlement_report_witness :
  ∃ uid cid ch a b,
    Js.present (bodyUserId (scoreBody "bob" (Js.of_Z 650) (Some "challenge-1")))
    = Some uid
    ∧ pendingChallenges (after (bothPaid ++ [aliceScores 800])) !! cid = Some ch
    ∧ (("alice" = challengerId ch ∧ "bob" = targetId ch)
       ∨ ("alice" = targetId ch ∧ "bob" = challengerId ch))
    ∧ "alice" ≠ "bob"
    ∧ Some (Js.of_Z 800) = Some a ∧ Some (Js.of_Z 650) = Some b ∧ Js.gt b a = false
    ∧ false = String.eqb uid "alice"
    ∧ 396000 = 396000.
Proof.
  eapply (settlement_report (after (bothPaid ++ [aliceScores 800]))
            (scoreBody "bob" (Js.of_Z 650) (Some "challenge-1")) 10 prizeSent
            (Js.of_Z 650)).
  - apply reachable_after.
  - vm_compute. reflexivity.
Defined.

Section AcceptedScores.

Lemma onScore_accepted body now prize s uid score timestamp :
  Js.present (bodyUserId body) = Some uid →
  bodyScore body = Some score →
  bodyTimestamp body = Some timestamp →
  ¬ refused body now →
  let s2 := with_totalGamesPlayed (fun n => n + 1)
              (updatePlayerStats uid (Js.or_default (bodyDisplayName body) "Player")
                 score s) in
  onScore body now prize s
  = match Js.present (bodyChallengeId body) with
    | Some cid =>
        match pendingChallenges s !! cid with
        | Some ch => scoreChallenge uid cid score ch prize s2
        | None => soloPlay score s2
        end
    | None => soloPlay score s2
    end.
Proof.
  intros Hu Hsc Hts Hvalid s2.
  assert (Hv1 : Js.lt score (Js.of_Z 0) || Js.gt score (Js.of_Z 100000) = false).
  { apply in_range; intros H; apply Hvalid; left; rewrite Hsc; tauto. }
  assert (Hv2 : Js.lt timestamp (Js.of_Z 0) || Js.gt timestamp (Js.of_Z (now + 60000))
                = false).
  { apply in_range; intros H; apply Hvalid; right; rewrite Hts; tauto. }
  unfold onScore. rewrite Hu, Hsc, Hts, Hv1, Hv2.
  destruct (Js.present (bodyChallengeId body)) as [cid|]; [|reflexivity].
  cbn [pendingChallenges with_totalGamesPlayed].
  rewrite updatePlayerStats_challenges. reflexivity.
Qed.

End AcceptedScores.

(** [X10] Solo play. A valid score request that names no challenge, or
    names one that is not in the live set (never issued, declined, or
    already settled), is solo play: the answer carries the new jackpot pool,
    which is 10000 more than before, the games counter goes up by one,
    nothing is sent, and the challenge store and the payment ledger are
    untouched. *)
Theorem solo_play_feeds_jackpot s body now prize uid score timestamp :
  Js.present (bodyUserId body) = Some uid →
  bodyScore body = Some score →
  bodyTimestamp body = Some timestamp →
  ¬ refused body now →
  (∀ cid, Js.present (bodyChallengeId body) = Some cid → pendingChallenges s !! cid = None) →
  let e := ScoreSubmission body now prize in
  reply e s = JsonSolo score (jackpotPool s + 10000)
  ∧ trace e s = []
  ∧ jackpotPool (next e s) = jackpotPool s + 10000
  ∧ totalGamesPlayed (next e s) = totalGamesPlayed s + 1
  ∧ pendingChallenges (next e s) = pendingChallenges s
  ∧ pendingPayments (next e s) = pendingPayments s.
Proof.
  intros Hu Hsc Hts Hvalid Hnone e. subst e.
  unfold reply, trace, next, handle.
  rewrite (onScore_accepted body now prize s uid score timestamp) by assumption.
  set (name := Js.or_default (bodyDisplayName body) "Player").
  destruct (updatePlayerStats_frame uid name score s) as (E1 & E2 & _).
  pose proof (updatePlayerStats_challenges uid name score s) as E3.
  pose proof (updatePlayerStats_payments uid name score s) as E4.
  assert (Hsolo : ∀ o, o = soloPlay score
                        (with_totalGamesPlayed (fun n => n + 1)
                           (updatePlayerStats uid name score s)) →
    snd o = JsonSolo score (jackpotPool s + 10000)
    ∧ snd (fst o) = []
    ∧ jackpotPool (fst (fst o)) = jackpotPool s + 10000
    ∧ totalGamesPlayed (fst (fst o)) = totalGamesPlayed s + 1
    ∧ pendingChallenges (fst (fst o)) = pendingChallenges s
    ∧ pendingPayments (fst (fst o)) = pendingPayments s).
  { intros o ->. unfold soloPlay; simpl. rewrite E1, E2, E3, E4. repeat split. }
  destruct (Js.present (bodyChallengeId body)) as [cid|]; [|apply Hsolo; reflexivity].
  rewrite (Hnone cid eq_refl). apply Hsolo. reflexivity.
Qed.

Lemma solo_play_feeds_jackpot_witness :
  let s := after (bothPaid ++ [aliceScores 800; bobScores 650 prizeSent]) in
  let e := carolScores 300 (Some "challenge-1") in
  reply e s = JsonSolo (Js.of_Z 300) (jackpotPool s + 10000)
  ∧ trace e s = []
  ∧ jackpotPool (next e s) = jackpotPool s + 10000
  ∧ totalGamesPlayed (next e s) = totalGamesPlayed s + 1
  ∧ pendingChallenges (next e s) = pendingChallenges s
  ∧ pendingPayments (next e s) = pendingPayments s.
Proof.
  apply (solo_play_feeds_jackpot
           (after (bothPaid ++ [aliceScores 800; bobScores 650 prizeSent]))
           (scoreBody "carol" (Js.of_Z 300) (Some "challenge-1")) 10 prizeSent
           "carol" (Js.of_Z 300) (Js.of_Z 5)).
  - reflexivity.
  - reflexivity.
  - reflexivity.
  - intros [[H|H]|[H|H]]; vm_compute in H; discriminate H.
  - intros cid [= <-]. vm_compute. reflexivity.
Defined.

(** [X11] A score from a stranger. In every state, a valid score request
    that names a live challenge which does not hold both scores, and that
    comes from an identity that is neither its challenger nor its target,
    leaves the whole challenge store unchanged and adds nothing to the
    jackpot pool; it is still counted as a game and answered "waiting for
    opponent", and nothing is sent. *)
Theorem stranger_score_leaves_challenge s body now prize uid score timestamp cid ch :
  Js.present (bodyUserId body) = Some uid →
  bodyScore body = Some score →
  bodyTimestamp body = Some timestamp →
  ¬ refused body now →
  Js.present (bodyChallengeId body) = Some cid →
  pendingChallenges s !! cid = Some ch →
  challengerScore ch = None ∨ targetScore ch = None →
  uid ≠ challengerId ch → uid ≠ targetId ch →
  let e := ScoreSubmission body now prize in
  reply e s = JsonWaitingForOpponent score
  ∧ trace e s = []
  ∧ pendingChallenges (next e s) = pendingChallenges s
  ∧ jackpotPool (next e s) = jackpotPool s
  ∧ totalGamesPlayed (next e s) = totalGamesPlayed s + 1.
Proof.
  intros Hu Hsc Hts Hvalid Hc Hch Hone Hn1 Hn2 e. subst e.
  unfold reply, trace, next, handle.
  rewrite (onScore_accepted body now prize s uid score timestamp) by assumption.
  rewrite Hc, Hch.
  set (name := Js.or_default (bodyDisplayName body) "Player").
  destruct (updatePlayerStats_frame uid name score s) as (E1 & E2 & _).
  pose proof (updatePlayerStats_challenges uid name score s) as E3.
  unfold scoreChallenge.
  rewrite (recordScore_stranger uid score ch Hn1 Hn2).
  apply String.eqb_neq in Hn1, Hn2. rewrite Hn1, Hn2. simpl.
  destruct (challengerScore ch) as [cs|], (targetScore ch) as [ts|];
    try (destruct Hone; discriminate); simpl; rewrite E1, E2, E3; repeat split.
Qed.

Lemma stranger_score_leaves_challenge_witness :
  let s := after bothPaid in
  let e := carolScores 300 (Some "challenge-1") in
  reply e s = JsonWaitingForOpponent (Js.of_Z 300)
  ∧ trace e s = []
  ∧ pendingChallenges (next e s) = pendingChallenges s
  ∧ jackpotPool (next e s) = jackpotPool s
  ∧ totalGamesPlayed (next e s) = totalGamesPlayed s + 1.
Proof.
  refine (stranger_score_leaves_challenge (after bothPaid)
            (scoreBody "carol" (Js.of_Z 300) (Some "challenge-1")) 10 prizeSent
            "carol" (Js.of_Z 300) (Js.of_Z 5) "challenge-1"
            {| id := "challenge-1"; challengerId := "alice"; challengerName := "Player";
               targetId := "bob"; targetName := "Bob"; wager := 200000;
               challengerPaid := true; targetPaid := true;
               challengerScore := None; targetScore := None; createdAt := 1;
               channelId := "town"; challengerTxHash := Some "0xA";
               targetTxHash := Some "0xB" |} _ _ _ _ _ _ _ _ _).
  - reflexivity.
  - reflexivity.
  - reflexivity.
  - intros [[H|H]|[H|H]]; vm_compute in H; discriminate H.
  - reflexivity.
  - vm_compute. reflexivity.
  - left. reflexivity.
  - discriminate.
  - discriminate.
Defined.

(** [X12] The first score of a challenge. In a reachable state, a valid
    score request from a party of a live challenge whose opponent has not
    scored yet records the score on that party's side, keeps the challenge
    in the live set with everything else as it was, disburses nothing,
    leaves the jackpot pool alone and is answered "waiting for opponent". *)
Theorem first_score_waits s body now prize uid score timestamp cid ch :
  reachable s →
  Js.present (bodyUserId body) = Some uid →
  bodyScore body = Some score →
  bodyTimestamp body = Some timestamp →
  ¬ refused body now →
  Js.present (bodyChallengeId body) = Some cid →
  pendingChallenges s !! cid = Some ch →
  (uid = challengerId ch ∧ targetScore ch = None)
  ∨ (uid = targetId ch ∧ challengerScore ch = None) →
  let e := ScoreSubmission body now prize in
  reply e s = JsonWaitingForOpponent score
  ∧ trace e s = []
  ∧ pendingChallenges (next e s)
    = <[cid := if decide (uid = challengerId ch) then set_challengerScore score ch
               else set_targetScore score ch]> (pendingChallenges s)
  ∧ jackpotPool (next e s) = jackpotPool s.
Proof.
  intros Hr Hu Hsc Hts Hvalid Hc Hch Hparty e. subst e.
  destruct (reachable_challenges_ok s Hr cid ch Hch) as [_ Hne].
  unfold reply, trace, next, handle.
  rewrite (onScore_accepted body now prize s uid score timestamp) by assumption.
  rewrite Hc, Hch.
  set (name := Js.or_default (bodyDisplayName body) "Player").
  destruct (updatePlayerStats_frame uid name score s) as (E1 & E2 & _).
  pose proof (updatePlayerStats_challenges uid name score s) as E3.
  unfold scoreChallenge, recordScore.
  destruct Hparty as [[-> Hnone]|[-> Hnone]].
  - rewrite String.eqb_refl, decide_True by reflexivity. simpl. rewrite Hnone.
    destruct (challengerScore ch); simpl; rewrite E2, E3; repeat split.
  - assert (E : String.eqb (targetId ch) (challengerId ch) = false).
    { apply String.eqb_neq. congruence. }
    rewrite E, String.eqb_refl, decide_False by congruence. simpl. rewrite Hnone.
    simpl. rewrite E2, E3. repeat split.
Qed.

Lemma first_score_waits_witness :
  let s := after bothPaid in
  let e := aliceScores 800 in
  reply e s = JsonWaitingForOpponent (Js.of_Z 800)
  ∧ trace e s = []
  ∧ pendingChallenges (next e s)
    = <["challenge-1" :=
          {| id := "challenge-1"; challengerId := "alice"; challengerName := "Player";
             targetId := "bob"; targetName := "Bob"; wager := 200000;
             challengerPaid := true; targetPaid := true;
             challengerScore := Some (Js.of_Z 800); targetScore := None; createdAt := 1;
             channelId := "town"; challengerTxHash := Some "0xA";
             targetTxHash := Some "0xB" |}]> (pendingChallenges s)
  ∧ jackpotPool (next e s) = jackpotPool s.
Proof.
  refine (first_score_waits (after bothPaid)
            (scoreBody "alice" (Js.of_Z 800) (Some "challenge-1")) 10 prizeSent
            "alice" (Js.of_Z 800) (Js.of_Z 5) "challenge-1"
            {| id := "challenge-1"; challengerId := "alice"; challengerName := "Player";
               targetId := "bob"; targetName := "Bob"; wager := 200000;
               challengerPaid := true; targetPaid := true;
               challengerScore := None; targetScore := None; createdAt := 1;
               channelId := "town"; challengerTxHash := Some "0xA";
               targetTxHash := Some "0xB" |} _ _ _ _ _ _ _ _).
  - apply reachable_after.
  - reflexivity.
  - reflexivity.
  - reflexivity.
  - intros [[H|H]|[H|H]]; vm_compute in H; discriminate H.
  - reflexivity.
  - vm_compute. reflexivity.
  - left. split; reflexivity.
Defined.

(** [X13] Every accepted score counts one game. A score request that passes
    validation always updates the submitter's record, on every path of the
    route (solo play, first or second score of a challenge, a repeated
    score, a score from a stranger): games played goes up by one, the best
    score becomes the score if the score is greater and is kept otherwise,
    and the display name of an existing record is kept; a player without a
    record gets one under the submitted name, or "Player". *)
Theorem accepted_score_counts_a_game s body now prize uid score timestamp :
  Js.present (bodyUserId body) = Some uid →
  bodyScore body = Some score →
  bodyTimestamp body = Some timestamp →
  ¬ refused body now →
  let before := default (newPlayerStats (Js.or_default (bodyDisplayName body) "Player"))
                  (playerStats s !! uid) in
  ∃ st', playerStats (next (ScoreSubmission body now prize) s) !! uid = Some st'
         ∧ gamesPlayed st' = gamesPlayed before + 1
         ∧ bestScore st' = (if Js.gt score (bestScore before) then score
                            else bestScore before)
         ∧ displayName st' = displayName before.
Proof.
  intros Hu Hsc Hts Hvalid before.
  destruct (onScore_submitter body now prize s uid score timestamp Hu Hsc Hts Hvalid)
    as (win & loss & H).
  eexists. split; [exact H|]. fold before.
  unfold tally, recordGame. cbn [bestScore].
  destruct (Js.gt score (bestScore before)), win, loss; repeat split.
Qed.

Lemma accepted_score_counts_a_game_witness :
  ∃ st', playerStats (next (aliceScores 100) (after (bothPaid ++ [aliceScores 800])))
           !! "alice" = Some st'
         ∧ gamesPlayed st' = 1 + 1
         ∧ bestScore st' = Js.of_Z 800
         ∧ displayName st' = "alice".
Proof.
  apply (accepted_score_counts_a_game (after (bothPaid ++ [aliceScores 800]))
           (scoreBody "alice" (Js.of_Z 100) (Some "challenge-1")) 10 prizeSent
           "alice" (Js.of_Z 100) (Js.of_Z 5)).
  - reflexivity.
  - reflexivity.
  - reflexivity.
  - intros [[H|H]|[H|H]]; vm_compute in H; discriminate H.
Defined.

(** ** Transaction responses *)

(** [X14] An unsuccessful payment. When a transaction response for a ledger
    entry carries no hash, or its receipt is not a success, or the
    verification fails with an error that is not classified as a timeout,
    the entry is marked failed and kept, one message goes to the payment's
    channel, a clean-up of the entry is queued, and nothing else changes:
    the challenge store, the confirmed set and every other ledger entry are
    as before. *)
Theorem unsuccessful_payment_marks_failed s requestId txHash v p :
  pendingPayments s !! requestId = Some p →
  accepted txHash v = false →
  let e := TransactionResponse requestId txHash v in
  pendingPayments (next e s) = <[requestId := set_status failed p]> (pendingPayments s)
  ∧ (∃ m, trace e s = [SendMessage (paymentChannelId p) m])
  ∧ timers (next e s) = app (timers s) [DeletePayment requestId]
  ∧ pendingChallenges (next e s) = pendingChallenges s
  ∧ confirmedPayments (next e s) = confirmedPayments s.
Proof.
  intros Hp Hacc e. subst e.
  unfold trace, next, handle, onTransactionResponse, accepted in *. rewrite Hp.
  destruct (Js.present txHash) as [h|].
  - destruct v as [[|]|errorMessage]; [discriminate| |].
    + simpl. repeat split. eauto.
    + unfold transactionVerifyError. unfold isTimeoutMessage in Hacc. rewrite Hacc.
      simpl. repeat split. eauto.
  - unfold transactionNotCompleted. simpl. repeat split. eauto.
Qed.

Lemma unsuccessful_payment_marks_failed_witness :
  let s := after soloRequested in
  let e := soloCallback (Some "0xA") (VerifyThrows "execution reverted") in
  pendingPayments (next e s)
  = <["play-alice-1" := set_status failed
        {| userId := "alice"; type := play; challengeId := None;
           paymentChannelId := "town"; status := pending |}]> (pendingPayments s)
  ∧ (∃ m, trace e s = [SendMessage "town" m])
  ∧ timers (next e s) = app (timers s) [DeletePayment "play-alice-1"]
  ∧ pendingChallenges (next e s) = pendingChallenges s
  ∧ confirmedPayments (next e s) = confirmedPayments s.
Proof.
  apply (unsuccessful_payment_marks_failed (after soloRequested) "play-alice-1"
           (Some "0xA") (VerifyThrows "execution reverted")
           {| userId := "alice"; type := play; challengeId := None;
              paymentChannelId := "town"; status := pending |}).
  - vm_compute. reflexivity.
  - vm_compute. reflexivity.
Defined.

(** [X15] An error taken for a timeout on a challenge leg does not advance
    the challenge. When the verification of a challenge-initiator or
    challenge-acceptor payment throws an error that the handler classifies
    as a timeout, that is, one whose message contains "timeout" or
    "timed out" in lower case, the challenge store is left as it was (no
    paid flag is set), the only thing sent is the "payment received"
    message (no accept/decline form, no game link), and the entry stays in
    the ledger, marked confirmed; a later response for the same identifier
    whose receipt is a success then sets the paid flag of the live
    challenge and removes the entry. *)
Theorem timeout_on_challenge_leg s requestId txHash h errorMessage p cid ch :
  pendingPayments s !! requestId = Some p →
  type p ≠ play →
  Js.present (challengeId p) = Some cid →
  pendingChallenges s !! cid = Some ch →
  Js.present txHash = Some h →
  isTimeoutMessage errorMessage = true →
  let e := TransactionResponse requestId txHash (VerifyThrows errorMessage) in
  let s1 := next e s in
  let s2 := next (TransactionResponse requestId txHash (Receipt true)) s1 in
  pendingChallenges s1 = pendingChallenges s
  ∧ trace e s = [SendMessage (paymentChannelId p) MsgPaymentReceivedSlowVerification]
  ∧ pendingPayments s1 !! requestId = Some (set_status confirmed p)
  ∧ pendingChallenges s2 !! cid
    = Some (match type p with
            | challenge_acceptor => set_targetPaid h ch
            | _ => set_challengerPaid h ch
            end)
  ∧ pendingPayments s2 !! requestId = None.
Proof.
  intros Hp Hty Hcid Hch Hh Ht e s1 s2.
  assert (Hs1 : s1 = setTimeout (DeletePaymentAndConfirmed requestId)
                       (with_confirmedPayments (fun c => {[requestId]} ∪ c)
                          (with_pendingPayments
                             <[requestId := set_status confirmed p]> s))
                ∧ trace e s
                  = [SendMessage (paymentChannelId p) MsgPaymentReceivedSlowVerification]).
  { subst s1 e. unfold trace, next, handle, onTransactionResponse, transactionVerifyError.
    unfold isTimeoutMessage in Ht. rewrite Hp, Hh, Ht. split; reflexivity. }
  destruct Hs1 as [Hs1 Htr].
  assert (Hl : pendingPayments s1 !! requestId = Some (set_status confirmed p)).
  { rewrite Hs1. simpl. apply lookup_insert_eq. }
  assert (Hc1 : pendingChallenges s1 = pendingChallenges s).
  { rewrite Hs1. reflexivity. }
  split; [exact Hc1|]. split; [exact Htr|]. split; [exact Hl|].
  subst s2. unfold next, handle, onTransactionResponse, transactionVerified.
  rewrite Hl, Hh. cbn [type challengeId set_status]. rewrite Hcid, Hc1, Hch.
  destruct (type p) eqn:E; [congruence| |]; simpl;
    (split; [apply lookup_insert_eq | apply lookup_delete_eq]).
Qed.

Lemma timeout_on_challenge_leg_witness :
  let e := TransactionResponse "challenge-init-challenge-1" (Some "0xA")
             (VerifyThrows "request timeout") in
  let s := after challengeIssued in
  let s1 := next e s in
  let s2 := next (TransactionResponse "challenge-init-challenge-1" (Some "0xA")
                    (Receipt true)) s1 in
  pendingChallenges s1 = pendingChallenges s
  ∧ trace e s = [SendMessage "town" MsgPaymentReceivedSlowVerification]
  ∧ pendingPayments s1 !! "challenge-init-challenge-1"
    = Some {| userId := "alice"; type := challenge_initiator;
              challengeId := Some "challenge-1"; paymentChannelId := "town";
              status := confirmed |}
  ∧ pendingChallenges s2 !! "challenge-1"
    = Some {| id := "challenge-1"; challengerId := "alice"; challengerName := "Player";
              targetId := "bob"; targetName := "Bob"; wager := 200000;
              challengerPaid := true; targetPaid := false;
              challengerScore := None; targetScore := None; createdAt := 1;
              channelId := "town"; challengerTxHash := Some "0xA";
              targetTxHash := None |}
  ∧ pendingPayments s2 !! "challenge-init-challenge-1" = None.
Proof.
  refine (timeout_on_challenge_leg (after challengeIssued) "challenge-init-challenge-1"
            (Some "0xA") "0xA" "request timeout"
            {| userId := "alice"; type := challenge_initiator;
               challengeId := Some "challenge-1"; paymentChannelId := "town";
               status := pending |}
            "challenge-1"
            {| id := "challenge-1"; challengerId := "alice"; challengerName := "Player";
               targetId := "bob"; targetName := "Bob"; wager := 200000;
               challengerPaid := false; targetPaid := false;
               challengerScore := None; targetScore := None; createdAt := 1;
               channelId := "town"; challengerTxHash := None; targetTxHash := None |}
            _ _ _ _ _ _).
  - vm_compute. reflexivity.
  - discriminate.
  - reflexivity.
  - vm_compute. reflexivity.
  - reflexivity.
  - vm_compute. reflexivity.
Defined.

(** [X16] A verified challenger payment prompts the target. In a reachable
    state, a transaction response with a hash and a successful receipt for a
    challenge-initiator entry of a live challenge sets [challengerPaid] and
    records the hash, removes the entry from the ledger, and sends the
    challenge message followed by one accept/decline form addressed to the
    target; the form's identifier starts with "challenge-response-" and
    stripping that prefix gives back the key of the challenge, which is how
    the form handler finds it. *)
Theorem verified_initiator_prompts_target s requestId txHash h p cid ch :
  reachable s →
  pendingPayments s !! requestId = Some p →
  type p = challenge_initiator →
  Js.present (challengeId p) = Some cid →
  pendingChallenges s !! cid = Some ch →
  Js.present txHash = Some h →
  let e := TransactionResponse requestId txHash (Receipt true) in
  ∃ formId,
    trace e s
    = [SendMessage (channelId ch) (MsgChallenged (targetId ch) (challengerName ch) h);
       SendInteractionRequest (channelId ch)
         (FormRequest formId ["accept"; "decline"] (targetId ch))]
    ∧ Js.startsWith "challenge-response-" formId = true
    ∧ Js.replace "challenge-response-" "" formId = cid
    ∧ pendingChallenges (next e s) = <[cid := set_challengerPaid h ch]> (pendingChallenges s)
    ∧ pendingPayments (next e s) = delete requestId (pendingPayments s).
Proof.
  intros Hr Hp Hty Hcid Hch Hh e. subst e.
  destruct (reachable_challenge_wf s cid ch Hr Hch) as [Hid _].
  exists ("challenge-response-" ++ cid).
  unfold trace, next, handle, onTransactionResponse, transactionVerified.
  rewrite Hp, Hh, Hty, Hcid, Hch. cbn [fst snd id set_challengerPaid]. rewrite Hid.
  split; [reflexivity|].
  split; [apply startsWith_response|].
  split; [apply replace_response|]. split; reflexivity.
Qed.

Lemma verified_initiator_prompts_target_witness :
  let e := TransactionResponse "challenge-init-challenge-1" (Some "0xA") (Receipt true) in
  ∃ formId,
    trace e (after challengeIssued)
    = [SendMessage "town" (MsgChallenged "bob" "Player" "0xA");
       SendInteractionRequest "town" (FormRequest formId ["accept"; "decline"] "bob")]
    ∧ Js.startsWith "challenge-response-" formId = true
    ∧ Js.replace "challenge-response-" "" formId = "challenge-1"
    ∧ pendingChallenges (next e (after challengeIssued))
      = <["challenge-1" :=
            {| id := "challenge-1"; challengerId := "alice"; challengerName := "Player";
               targetId := "bob"; targetName := "Bob"; wager := 200000;
               challengerPaid := true; targetPaid := false;
               challengerScore := None; targetScore := None; createdAt := 1;
               channelId := "town"; challengerTxHash := Some "0xA";
               targetTxHash := None |}]> (pendingChallenges (after challengeIssued))
    ∧ pendingPayments (next e (after challengeIssued))
      = delete "challenge-init-challenge-1" (pendingPayments (after challengeIssued)).
Proof.
  refine (verified_initiator_prompts_target (after challengeIssued)
            "challenge-init-challenge-1" (Some "0xA") "0xA"
            {| userId := "alice"; type := challenge_initiator;
               challengeId := Some "challenge-1"; paymentChannelId := "town";
               status := pending |}
            "challenge-1"
            {| id := "challenge-1"; challengerId := "alice"; challengerName := "Player";
               targetId := "bob"; targetName := "Bob"; wager := 200000;
               challengerPaid := false; targetPaid := false;
               challengerScore := None; targetScore := None; createdAt := 1;
               channelId := "town"; challengerTxHash := None; targetTxHash := None |}
            _ _ _ _ _ _).
  - apply reachable_after.
  - vm_compute. reflexivity.
  - reflexivity.
  - reflexivity.
  - vm_compute. reflexivity.
  - reflexivity.
Defined.

(** ** Form responses *)

Section Forms.

Lemma map_const_repeat {A B : Type} (x : B) (l : list A) :
  List.map (fun _ => x) l = repeat x (length l).
Proof. induction l as [|a l IH]; [reflexivity | simpl; f_equal; exact IH]. Qed.

Lemma formComponents_accept_only user cid ch prizes cs : ∀ k s,
  existsb isDecline cs = false →
  formComponents user cid ch prizes k cs s
  = (if existsb isAccept cs
     then with_pendingPayments <["challenge-accept-" ++ cid := acceptorPayment user cid ch]> s
     else s,
     List.map (fun _ => SendInteractionRequest (channelId ch)
                          (TransactionRequest ("challenge-accept-" ++ cid)
                             CHALLENGE_FEE user))
       (List.filter isAccept cs)).
Proof.
  induction cs as [|c cs IH]; intros k s Hno; simpl; [reflexivity|].
  simpl in Hno. apply orb_false_iff in Hno as [Hc Hno].
  unfold isDecline in Hc. unfold isAccept at 1 3.
  destruct (isButton c); simpl in *; [|apply IH, Hno].
  destruct (String.eqb (componentId c) "accept"); simpl.
  - rewrite IH by exact Hno. fold (acceptorPayment user cid ch).
    destruct (existsb isAccept cs); [|reflexivity].
    unfold with_pendingPayments; simpl. rewrite insert_insert_eq. reflexivity.
  - rewrite Hc. apply IH, Hno.
Qed.

End Forms.

(** [X17] Accepting a challenge. For a live challenge, a form response from
    the target with at least one accept button and no decline button files
    a pending challenge-acceptor payment under "challenge-accept-" followed
    by the challenge key, and sends the target one payment request of the
    challenge fee per accept button. Nothing else changes: the challenge is
    as it was, whether or not the challenger has paid. *)
Theorem accept_files_acceptor_payment s cid ch components prizes :
  pendingChallenges s !! cid = Some ch →
  existsb isAccept components = true →
  existsb isDecline components = false →
  let e := FormResponse (targetId ch) ("challenge-response-" ++ cid) components prizes in
  let paymentId := "challenge-accept-" ++ cid in
  next e s
  = with_pendingPayments <[paymentId := acceptorPayment (targetId ch) cid ch]> s
  ∧ trace e s
    = repeat (SendInteractionRequest (channelId ch)
                (TransactionRequest paymentId CHALLENGE_FEE (targetId ch)))
        (length (List.filter isAccept components))
  ∧ checkPayment (Some paymentId) (next e s) = PaymentIs pending.
Proof.
  intros Hch Hacc Hdec e paymentId. subst e paymentId.
  unfold trace, next, handle, onFormResponse.
  rewrite startsWith_response, replace_response, Hch, String.eqb_refl.
  rewrite formComponents_accept_only by exact Hdec. rewrite Hacc. cbn [fst snd].
  split; [reflexivity|]. split.
  - apply map_const_repeat.
  - unfold checkPayment.
    change (Js.present (Some ("challenge-accept-" ++ cid)))
      with (Some ("challenge-accept-" ++ cid)).
    cbn [pendingPayments with_pendingPayments]. rewrite lookup_insert_eq. reflexivity.
Qed.

Lemma accept_files_acceptor_payment_witness :
  let s := after (firstn 2 bothPaid) in
  let e := FormResponse "bob" "challenge-response-challenge-1"
             [mkComponent "accept" true] (fun _ => NoSmartAccount) in
  next e s
  = with_pendingPayments
      <["challenge-accept-challenge-1" :=
          {| userId := "bob"; type := challenge_acceptor;
             challengeId := Some "challenge-1"; paymentChannelId := "town";
             status := pending |}]> s
  ∧ trace e s
    = [SendInteractionRequest "town"
         (TransactionRequest "challenge-accept-challenge-1" 200000 "bob")]
  ∧ checkPayment (Some "challenge-accept-challenge-1") (next e s) = PaymentIs pending.
Proof.
  refine (accept_files_acceptor_payment (after (firstn 2 bothPaid)) "challenge-1"
            {| id := "challenge-1"; challengerId := "alice"; challengerName := "Player";
               targetId := "bob"; targetName := "Bob"; wager := 200000;
               challengerPaid := true; targetPaid := false;
               challengerScore := None; targetScore := None; createdAt := 1;
               channelId := "town"; challengerTxHash := Some "0xA";
               targetTxHash := None |}
            [mkComponent "accept" true] (fun _ => NoSmartAccount) _ _ _).
  - vm_compute. reflexivity.
  - reflexivity.
  - reflexivity.
Defined.

(** [X18] Form responses that are ignored. A form response whose request
    identifier does not start with "challenge-response-", or whose challenge
    is not in the live set, or that comes from anyone but the target of the
    challenge, changes nothing and sends nothing, whatever buttons it
    carries. *)
Theorem form_response_ignored s user requestId components prizes :
  Js.startsWith "challenge-response-" requestId = false
  ∨ pendingChallenges s !! Js.replace "challenge-response-" "" requestId = None
  ∨ (∃ ch, pendingChallenges s !! Js.replace "challenge-response-" "" requestId = Some ch
           ∧ user ≠ targetId ch) →
  handle (FormResponse user requestId components prizes) s = (s, [], NoResponse).
Proof.
  unfold handle, onFormResponse.
  intros [H|[H|(ch & H & Hne)]].
  - rewrite H. reflexivity.
  - rewrite H. destruct (Js.startsWith _ _); reflexivity.
  - rewrite H. apply String.eqb_neq in Hne. rewrite Hne.
    destruct (Js.startsWith _ _); reflexivity.
Qed.

Lemma form_response_ignored_witness :
  handle (FormResponse "alice" "challenge-response-challenge-1"
            [mkComponent "decline" true] (fun _ => prizeSent))
    (after (firstn 2 bothPaid))
  = (after (firstn 2 bothPaid), [], NoResponse).
Proof.
  apply form_response_ignored. right. right.
  eexists. split; [vm_compute; reflexivity | discriminate].
Defined.

(** [X19] One refund per decline button. For a live challenge, a form
    response from the target calls [sendPrize] for the challenger and the
    challenge fee once for every decline button it carries, each call with
    its own outcome: none without a decline button, two with two. The
    challenge leaves the live set exactly when there is at least one. *)
Theorem each_decline_button_refunds s cid ch components prizes :
  pendingChallenges s !! cid = Some ch →
  let e := FormResponse (targetId ch) ("challenge-response-" ++ cid) components prizes in
  disbursements (trace e s)
  = repeat (challengerId ch, CHALLENGE_FEE) (length (List.filter isDecline components))
  ∧ pendingChallenges (next e s) !! cid
    = (if existsb isDecline components then None else Some ch).
Proof.
  intros Hch e. subst e.
  unfold trace, next, handle, onFormResponse.
  rewrite startsWith_response, replace_response, Hch, String.eqb_refl.
  pose proof (formComponents_disbursements (targetId ch) cid ch prizes components 0%nat s)
    as Hd.
  pose proof (formComponents_challenges (targetId ch) cid ch prizes components 0%nat s)
    as Hc.
  destruct (formComponents _ _ _ _ _ _ _) as [s' effs]; simpl in *.
  rewrite Hd, Hc. split.
  - apply map_const_repeat.
  - destruct (existsb isDecline components); [apply lookup_delete_eq | exact Hch].
Qed.

Lemma each_decline_button_refunds_witness :
  let e := FormResponse "bob" "challenge-response-challenge-1"
             [mkComponent "decline" true; mkComponent "decline" true]
             (fun _ => prizeSent) in
  disbursements (trace e (after (firstn 2 bothPaid)))
  = [("alice", 200000); ("alice", 200000)]
  ∧ pendingChallenges (next e (after (firstn 2 bothPaid))) !! "challenge-1" = None.
Proof.
  refine (each_decline_button_refunds (after (firstn 2 bothPaid)) "challenge-1"
            {| id := "challenge-1"; challengerId := "alice"; challengerName := "Player";
               targetId := "bob"; targetName := "Bob"; wager := 200000;
               challengerPaid := true; targetPaid := false;
               challengerScore := None; targetScore := None; createdAt := 1;
               channelId := "town"; challengerTxHash := Some "0xA";
               targetTxHash := None |}
            [mkComponent "decline" true; mkComponent "decline" true]
            (fun _ => prizeSent) _).
  vm_compute. reflexivity.
Defined.

(** ** Payment requests, polling and clean-up *)

(** [X20] Requesting a solo payment. With a user and a channel, the
    payment-request route files a pending solo entry under "play-", the
    user, "-" and the clock value, replacing whatever was filed under that
    identifier, sends one payment request of the entry fee to the channel,
    and answers with the identifier; polling that identifier then answers
    "pending". Without a user or without a channel it answers 400 and
    changes nothing. *)
Theorem payment_request_files_pending_entry s user channel now :
  (∀ uid chan,
     Js.present user = Some uid → Js.present channel = Some chan →
     let e := RequestPayment user channel now in
     let paymentId := "play-" ++ uid ++ "-" ++ Js.decimal now in
     reply e s = JsonPaymentRequested paymentId
     ∧ trace e s = [SendInteractionRequest chan (TransactionRequest paymentId ENTRY_FEE uid)]
     ∧ pendingPayments (next e s)
       = <[paymentId := {| userId := uid; type := play; challengeId := None;
                           paymentChannelId := chan; status := pending |}]>
           (pendingPayments s)
     ∧ checkPayment (Some paymentId) (next e s) = PaymentIs pending)
  ∧ (Js.present user = None ∨ Js.present channel = None →
     handle (RequestPayment user channel now) s
     = (s, [], Json400 "Missing userId or channelId")).
Proof.
  split.
  - intros uid chan Hu Hc e paymentId. subst e paymentId.
    unfold reply, trace, next, handle, onRequestPayment. rewrite Hu, Hc.
    cbn [fst snd]. repeat split.
    unfold checkPayment.
    change (Js.present (Some ("play-" ++ uid ++ "-" ++ Js.decimal now)))
      with (Some ("play-" ++ uid ++ "-" ++ Js.decimal now)).
    cbn [pendingPayments with_pendingPayments]. rewrite lookup_insert_eq. reflexivity.
  - unfold handle, onRequestPayment. intros [H|H]; rewrite H; [reflexivity|].
    destruct (Js.present user); reflexivity.
Qed.

Lemma payment_request_files_pending_entry_witness :
  (let e := RequestPayment (Some "alice") (Some "town") 1 in
   reply e initial = JsonPaymentRequested "play-alice-1"
   ∧ trace e initial
     = [SendInteractionRequest "town" (TransactionRequest "play-alice-1" ENTRY_FEE "alice")]
   ∧ pendingPayments (next e initial)
     = <["play-alice-1" := {| userId := "alice"; type := play; challengeId := None;
                              paymentChannelId := "town"; status := pending |}]>
         (pendingPayments initial)
   ∧ checkPayment (Some "play-alice-1") (next e initial) = PaymentIs pending)
  ∧ handle (RequestPayment (Some "alice") None 1) initial
    = (initial, [], Json400 "Missing userId or channelId").
Proof.
  split.
  - apply (proj1 (payment_request_files_pending_entry initial (Some "alice")
                    (Some "town") 1) "alice" "town"); reflexivity.
  - apply (proj2 (payment_request_files_pending_entry initial (Some "alice") None 1)).
    right. reflexivity.
Defined.

(** [X21] What a poll sees after the callback. For a solo payment in the
    ledger, polling its identifier after a transaction response answers
    "confirmed" when the handler takes the response as a successful payment
    (a hash with a successful receipt, or a hash with a verification error
    that the handler classifies as a timeout: its message contains
    "timeout" or "timed out" in lower case) and "failed" otherwise, and the
    identifier is in the confirmed set in the first case. For a challenge
    leg of a live challenge whose receipt is a success, the poll answers
    "not found", because the entry is removed. *)
Theorem poll_after_callback s requestId txHash v p :
  pendingPayments s !! requestId = Some p →
  requestId ≠ "" →
  let s' := next (TransactionResponse requestId txHash v) s in
  (type p = play →
   checkPayment (Some requestId) s'
   = PaymentIs (if accepted txHash v then confirmed else failed)
   ∧ (accepted txHash v = true → requestId ∈ confirmedPayments s'))
  ∧ (type p ≠ play →
     ∀ h cid ch,
       Js.present txHash = Some h → v = Receipt true →
       Js.present (challengeId p) = Some cid → pendingChallenges s !! cid = Some ch →
       checkPayment (Some requestId) s' = PaymentNotFound).
Proof.
  intros Hp Hne s'. subst s'.
  assert (Hpres : Js.present (Some requestId) = Some requestId).
  { unfold Js.present. apply String.eqb_neq in Hne. rewrite Hne. reflexivity. }
  unfold checkPayment. rewrite Hpres.
  unfold next, handle, onTransactionResponse, accepted. rewrite Hp. split.
  - intros Hty.
    destruct (Js.present txHash) as [h|].
    + destruct v as [[|]|errorMessage].
      * unfold transactionVerified. rewrite Hty. simpl. rewrite lookup_insert_eq.
        split; [reflexivity | set_solver].
      * simpl. rewrite lookup_insert_eq. split; [reflexivity | discriminate].
      * unfold transactionVerifyError, isTimeoutMessage.
        destruct (_ || _); simpl; rewrite lookup_insert_eq;
          (split; [reflexivity | (set_solver || discriminate)]).
    + unfold transactionNotCompleted. simpl. rewrite lookup_insert_eq.
      split; [reflexivity | discriminate].
  - intros Hty h cid ch Hh -> Hcid Hch. rewrite Hh.
    unfold transactionVerified. rewrite Hcid, Hch.
    destruct (type p); [congruence| |]; simpl; rewrite lookup_delete_eq; reflexivity.
Qed.

Lemma poll_after_callback_witness :
  let s' := next (soloCallback (Some "0xA") (Receipt true)) (after soloRequested) in
  checkPayment (Some "play-alice-1") s' = PaymentIs confirmed
  ∧ (true = true → "play-alice-1" ∈ confirmedPayments s').
Proof.
  refine (proj1 (poll_after_callback (after soloRequested) "play-alice-1" (Some "0xA")
                   (Receipt true)
                   {| userId := "alice"; type := play; challengeId := None;
                      paymentChannelId := "town"; status := pending |} _ _) _).
  - vm_compute. reflexivity.
  - discriminate.
  - reflexivity.
Defined.

(** [X22] Clean-up timers. A queued clean-up that runs removes its payment
    from the ledger, and from the confirmed set when it was queued by a
    confirmation, leaves every other ledger entry alone, sends nothing and
    shortens the queue by one; a poll for the payment then answers "not
    found". *)
Theorem cleanup_timer_removes_payment s k t :
  timers s !! k = Some t →
  let s' := next (TimerFires k) s in
  pendingPayments s' = delete (timerPayment t) (pendingPayments s)
  ∧ confirmedPayments s'
    = match t with
      | DeletePayment _ => confirmedPayments s
      | DeletePaymentAndConfirmed paymentId => confirmedPayments s ∖ {[paymentId]}
      end
  ∧ S (length (timers s')) = length (timers s)
  ∧ trace (TimerFires k) s = []
  ∧ (timerPayment t ≠ "" → checkPayment (Some (timerPayment t)) s' = PaymentNotFound)
  ∧ pendingChallenges s' = pendingChallenges s.
Proof.
  intros Ht s'. subst s'.
  unfold trace, next, handle, onTimer. rewrite Ht.
  assert (Hlen : S (length (delete k (timers s))) = length (timers s)).
  { pose proof (lookup_lt_Some _ _ _ Ht) as Hlt.
    rewrite length_delete by (rewrite Ht; eauto). lia. }
  destruct t as [pid|pid]; simpl; repeat split; try exact Hlen.
  all: intros Hne; unfold checkPayment, Js.present;
    apply String.eqb_neq in Hne; rewrite Hne; simpl;
    rewrite lookup_delete_eq; reflexivity.
Qed.

Lemma cleanup_timer_removes_payment_witness :
  let s := after (soloRequested ++ [soloCallback (Some "0xA") (Receipt true)]) in
  let s' := next (TimerFires 0) s in
  pendingPayments s' = delete "play-alice-1" (pendingPayments s)
  ∧ confirmedPayments s' = confirmedPayments s ∖ {["play-alice-1"]}
  ∧ S (length (timers s')) = length (timers s)
  ∧ trace (TimerFires 0) s = []
  ∧ ("play-alice-1" ≠ "" → checkPayment (Some "play-alice-1") s' = PaymentNotFound)
  ∧ pendingChallenges s' = pendingChallenges s.
Proof.
  apply (cleanup_timer_removes_payment
           (after (soloRequested ++ [soloCallback (Some "0xA") (Receipt true)]))
           0%nat (DeletePaymentAndConfirmed "play-alice-1")).
  vm_compute. reflexivity.
Defined.

Section Tidy.

Lemma elem_of_delete_other {A : Type} (l : list A) k t x :
  l !! k = Some t → x ∈ l → x ≠ t → x ∈ delete k l.
Proof.
  revert k. induction l as [|a l IH]; intros k Hk Hx Hne; [inversion Hx|].
  destruct k as [|k]; simpl in *.
  - injection Hk as ->. apply elem_of_cons in Hx as [->|Hx]; [congruence | exact Hx].
  - apply elem_of_cons in Hx as [->|Hx]; [left | right; eapply IH; eauto].
Qed.

Lemma cleanupQueued_more paymentId s s' :
  (∀ t, t ∈ timers s → t ∈ timers s') → cleanupQueued paymentId s → cleanupQueued paymentId s'.
Proof. intros H [Hq|Hq]; [left | right]; apply H, Hq. Qed.

Lemma onScore_timers body now prize s :
  timers (fst (fst (onScore body now prize s))) = timers s
  ∧ confirmedPayments (fst (fst (onScore body now prize s))) = confirmedPayments s.
Proof.
  unfold onScore.
  destruct (Js.present (bodyUserId body)) as [uid|]; [|split; reflexivity].
  destruct (bodyScore body) as [score|]; [|split; reflexivity].
  destruct (bodyTimestamp body) as [timestamp|]; [|split; reflexivity].
  destruct (_ || _); [split; reflexivity|].
  destruct (_ || _); [split; reflexivity|].
  set (name := Js.or_default (bodyDisplayName body) "Player").
  destruct (updatePlayerStats_frame uid name score s) as (_ & _ & E3 & E4).
  assert (Hsolo : ∀ s2, timers s2 = timers s → confirmedPayments s2 = confirmedPayments s →
            timers (fst (fst (soloPlay score s2))) = timers s
            ∧ confirmedPayments (fst (fst (soloPlay score s2))) = confirmedPayments s).
  { intros s2 H1 H2. unfold soloPlay; simpl. auto. }
  destruct (Js.present (bodyChallengeId body)) as [cid|]; [|apply Hsolo; assumption].
  destruct (pendingChallenges _ !! cid) as [ch|]; [|apply Hsolo; assumption].
  match goal with
  | |- context [scoreChallenge ?a ?b ?c ?d ?e ?f] =>
      destruct (scoreChallenge_frame a b c d e f) as (_ & _ & F3 & F4)
  end.
  rewrite F3, F4. simpl. auto.
Qed.

(** Events that file payments but never settle them leave the queue and
    the confirmed set alone, and every ledger entry they produce is either
    pending or an entry that was there before. *)
Lemma filing_events_ledger e s :
  (∀ requestId txHash v, e ≠ TransactionResponse requestId txHash v) →
  (∀ k, e ≠ TimerFires k) →
  timers (next e s) = timers s
  ∧ confirmedPayments (next e s) = confirmedPayments s
  ∧ (∀ paymentId p, pendingPayments (next e s) !! paymentId = Some p →
       status p = pending ∨ pendingPayments s !! paymentId = Some p).
Proof.
  intros Hntx Hntimer.
  destruct e as [user channel mentions now | requestId txHash v
    | user requestId components prizes | user channel now | body now prize | k];
    unfold next, handle.
  - unfold onSlashChallenge. destruct mentions as [|m ms]; [auto|].
    destruct (String.eqb (mentionUserId m) user); [auto|].
    simpl. repeat split. intros paymentId p. rewrite lookup_insert.
    case_decide; [intros [= <-]; auto | auto].
  - exfalso. eapply Hntx. reflexivity.
  - unfold onFormResponse.
    destruct (Js.startsWith _ _); [|auto].
    destruct (pendingChallenges s !! _) as [ch|]; [|auto].
    destruct (String.eqb user (targetId ch)); [|auto].
    pose proof (formComponents_aggregates user
      (Js.replace "challenge-response-" "" requestId) ch prizes components 0%nat s)
      as (_ & _ & H3 & H4).
    pose proof (formComponents_payments user
      (Js.replace "challenge-response-" "" requestId) ch prizes components 0%nat s) as H5.
    destruct (formComponents _ _ _ _ _ _ _) as [s' effs]; simpl in *.
    repeat split; auto.
    intros paymentId p Hp. destruct (H5 paymentId) as [H|(_ & p' & H & Hpend)].
    + right. congruence.
    + left. congruence.
  - unfold onRequestPayment.
    destruct (Js.present user) as [uid|], (Js.present channel) as [chan|]; auto.
    simpl. repeat split. intros paymentId p. rewrite lookup_insert.
    case_decide; [intros [= <-]; auto | auto].
  - destruct (onScore_timers body now prize s) as [E1 E2].
    rewrite E1, E2, onScore_payments. auto.
  - exfalso. eapply Hntimer. reflexivity.
Qed.

Lemma tidy_next e s : ledger_tidy s → ledger_tidy (next e s).
Proof.
  intros [Hterm Hconf].
  assert (Hsame : ledger_tidy s) by (split; assumption).
  destruct e as [user channel mentions now | requestId txHash v
    | user requestId components prizes | user channel now | body now prize | k].
  2: { assert (Hfail : ∀ m,
         ledger_tidy (setTimeout (DeletePayment requestId)
                        (with_pendingPayments <[requestId := m]> s))).
       { intros m. split.
         - intros pid p' Hp' Hter. simpl in Hp'. rewrite lookup_insert in Hp'.
           case_decide; [subst; left; simpl; apply elem_of_app; right; left|].
           eapply cleanupQueued_more; [|eapply Hterm; eauto].
           intros t Ht. simpl. apply elem_of_app. auto.
         - intros pid Hin. simpl in *. apply elem_of_app. left. apply Hconf, Hin. }
       assert (Hok : ∀ m,
         ledger_tidy (setTimeout (DeletePaymentAndConfirmed requestId)
                        (with_confirmedPayments (fun c => {[requestId]} ∪ c)
                           (with_pendingPayments <[requestId := m]> s)))).
       { intros m. split.
         - intros pid p' Hp' Hter. simpl in Hp'. rewrite lookup_insert in Hp'.
           case_decide; [subst; right; simpl; apply elem_of_app; right; left|].
           eapply cleanupQueued_more; [|eapply Hterm; eauto].
           intros t Ht. simpl. apply elem_of_app. auto.
         - intros pid Hin. simpl in *. apply elem_of_app.
           apply elem_of_union in Hin as [Hin|Hin].
           + apply elem_of_singleton in Hin as ->. right. left.
           + left. apply Hconf, Hin. }
       assert (Hleg : ∀ cid ch,
         ledger_tidy (with_pendingPayments (delete requestId)
                        (with_pendingChallenges <[cid := ch]> s))).
       { intros cid ch. split.
         - intros pid p' Hp' Hter. simpl in Hp'.
           apply lookup_delete_Some in Hp' as [_ Hp'].
           destruct (Hterm pid p' Hp' Hter) as [H|H]; [left | right]; exact H.
         - intros pid Hin. apply Hconf, Hin. }
       unfold next, handle, onTransactionResponse.
       destruct (pendingPayments s !! requestId) as [p|]; [|exact Hsame].
       destruct (Js.present txHash) as [h|]; [|apply Hfail].
       destruct v as [[|]|errorMessage]; [|apply Hfail|].
       - unfold transactionVerified.
         destruct (type p), (Js.present (challengeId p)) as [cid|];
           try exact Hsame; try apply Hok;
           destruct (pendingChallenges s !! cid); try exact Hsame; apply Hleg.
       - unfold transactionVerifyError. destruct (_ || _); [apply Hok | apply Hfail]. }
  5: { unfold next, handle, onTimer.
       destruct (timers s !! k) as [t|] eqn:Ht; [|exact Hsame].
       assert (Hkeep : ∀ x, x ∈ timers s → x ≠ t → x ∈ delete k (timers s)).
       { intros x Hx Hne. eapply elem_of_delete_other; eauto. }
       split.
       - intros pid p' Hp' Hter.
         assert (Hp : pendingPayments s !! pid = Some p' ∧ timerPayment t ≠ pid).
         { destruct t; simpl in Hp'; apply lookup_delete_Some in Hp' as [? ?]; auto. }
         destruct Hp as [Hp Hne].
         destruct (Hterm pid p' Hp Hter) as [H|H]; [left | right];
           (destruct t; simpl in *; (apply Hkeep; [exact H | congruence])).
       - intros pid Hin.
         destruct t as [q|q]; simpl in *.
         + apply Hkeep; [apply Hconf, Hin | discriminate].
         + apply elem_of_difference in Hin as [Hin Hnot].
           apply Hkeep; [apply Hconf, Hin|].
           intros [= ->]. apply Hnot. apply elem_of_singleton. reflexivity. }
  all: match goal with
       | |- ledger_tidy (next ?e ?s0) =>
           destruct (filing_events_ledger e s0) as (E1 & E2 & E3);
             [discriminate | discriminate |];
           split;
           [ intros pid p' Hp' Hter;
             destruct (E3 pid p' Hp') as [Hpend|Hold]; [congruence|];
             eapply cleanupQueued_more; [|eapply Hterm; eauto];
             intros t Ht; rewrite E1; exact Ht
           | intros pid Hin; rewrite E1; rewrite E2 in Hin; apply Hconf, Hin ]
       end.
Qed.

End Tidy.

(** [X23] Nothing terminal is kept for ever. In every reachable state, every
    ledger entry whose status is confirmed or failed has a clean-up queued
    that will remove it, and every identifier in the confirmed set has a
    clean-up queued that will remove it from the set and from the ledger. *)
Theorem terminal_payments_have_cleanup s :
  reachable s →
  (∀ paymentId p, pendingPayments s !! paymentId = Some p → status p ≠ pending →
     DeletePayment paymentId ∈ timers s ∨ DeletePaymentAndConfirmed paymentId ∈ timers s)
  ∧ (∀ paymentId, paymentId ∈ confirmedPayments s →
       DeletePaymentAndConfirmed paymentId ∈ timers s).
Proof.
  intros Hr. change (ledger_tidy s).
  induction Hr as [|e s0 Hr IH].
  - split.
    + intros pid p Hp. change (pendingPayments initial)
        with (∅ : gmap string PendingPayment) in Hp.
      rewrite lookup_empty in Hp. discriminate.
    + intros pid Hin. simpl in Hin. set_solver.
  - apply tidy_next, IH.
Qed.

Lemma terminal_payments_have_cleanup_witness :
  let s := after (soloRequested ++ [soloCallback None (Receipt false);
                                    soloCallback (Some "0xA") (Receipt true);
                                    TimerFires 0]) in
  (∀ paymentId p, pendingPayments s !! paymentId = Some p → status p ≠ pending →
     DeletePayment paymentId ∈ timers s ∨ DeletePaymentAndConfirmed paymentId ∈ timers s)
  ∧ (∀ paymentId, paymentId ∈ confirmedPayments s →
       DeletePaymentAndConfirmed paymentId ∈ timers s).
Proof. apply terminal_payments_have_cleanup, reachable_after. Defined.

(** ** The challenge command *)

(** [X24] Issuing a challenge. Without a mention, or when the first mention
    is the user, the command sends one message and changes nothing.
    Otherwise it files, under "challenge-" and the clock value, a challenge
    of the user against the first mention with the challenge fee as wager,
    both paid flags false and no scores, replacing whatever was filed under
    that key; it files a pending challenge-initiator payment that names the
    challenge; and it sends the user one payment request of the challenge
    fee. *)
Theorem challenge_command_files_challenge s user channel mentions now :
  (mentions = [] ∨ (∃ m ms, mentions = m :: ms ∧ mentionUserId m = user) →
   next (SlashChallenge user channel mentions now) s = s
   ∧ ∃ m, trace (SlashChallenge user channel mentions now) s = [SendMessage channel m])
  ∧ (∀ m ms, mentions = m :: ms → mentionUserId m ≠ user →
     let e := SlashChallenge user channel mentions now in
     let cid := "challenge-" ++ Js.decimal now in
     let paymentId := "challenge-init-" ++ cid in
     (∃ ch, pendingChallenges (next e s) !! cid = Some ch
            ∧ isFresh user cid ch
            ∧ targetId ch = mentionUserId m ∧ targetName ch = mentionDisplayName m
            ∧ channelId ch = channel)
     ∧ pendingPayments (next e s) !! paymentId
       = Some {| userId := user; type := challenge_initiator; challengeId := Some cid;
                 paymentChannelId := channel; status := pending |}
     ∧ trace e s
       = [SendInteractionRequest channel (TransactionRequest paymentId CHALLENGE_FEE user)]
     ∧ playerStats (next e s) = playerStats s).
Proof.
  split.
  - intros [->|(m & ms & -> & Hself)]; unfold next, trace, handle, onSlashChallenge.
    + split; [reflexivity | eauto].
    + rewrite Hself, String.eqb_refl. split; [reflexivity | eauto].
  - intros m ms -> Hne e cid paymentId. subst e cid paymentId.
    unfold next, trace, handle, onSlashChallenge.
    apply String.eqb_neq in Hne. rewrite Hne. cbn [fst snd].
    split; [|split; [|split; reflexivity]].
    + eexists. split; [simpl; apply lookup_insert_eq|].
      apply String.eqb_neq in Hne. unfold isFresh; simpl. repeat split; congruence.
    + simpl. apply lookup_insert_eq.
Qed.

Lemma challenge_command_files_challenge_witness :
  (next (SlashChallenge "alice" "town" [mkMention "alice" "Alice"] 1) initial = initial
   ∧ ∃ m, trace (SlashChallenge "alice" "town" [mkMention "alice" "Alice"] 1) initial
          = [SendMessage "town" m])
  ∧ (let e := SlashChallenge "alice" "town" [mkMention "bob" "Bob"] 1 in
     (∃ ch, pendingChallenges (next e initial) !! "challenge-1" = Some ch
            ∧ isFresh "alice" "challenge-1" ch
            ∧ targetId ch = "bob" ∧ targetName ch = "Bob"
            ∧ channelId ch = "town")
     ∧ pendingPayments (next e initial) !! "challenge-init-challenge-1"
       = Some {| userId := "alice"; type := challenge_initiator;
                 challengeId := Some "challenge-1"; paymentChannelId := "town";
                 status := pending |}
     ∧ trace e initial
       = [SendInteractionRequest "town"
            (TransactionRequest "challenge-init-challenge-1" CHALLENGE_FEE "alice")]
     ∧ playerStats (next e initial) = playerStats initial).
Proof.
  split.
  - apply (proj1 (challenge_command_files_challenge initial "alice" "town"
                    [mkMention "alice" "Alice"] 1)).
    right. exists (mkMention "alice" "Alice"), []. split; reflexivity.
  - apply (proj2 (challenge_command_files_challenge initial "alice" "town"
                    [mkMention "bob" "Bob"] 1) (mkMention "bob" "Bob") []).
    + reflexivity.
    + discriminate.
Defined.

(** ** The challenge status route *)

Section CheckChallenge.

Variable lower : string → string.

Lemma findChallenge_none normalized entries :
  findChallenge lower normalized entries = NoActiveChallenge
  ↔ ∀ cid ch, (cid, ch) ∈ entries →
      lower (challengerId ch) ≠ normalized ∧ lower (targetId ch) ≠ normalized.
Proof.
  induction entries as [|[cid0 ch0] rest IH]; simpl.
  - split; [intros _ cid ch H; inversion H | reflexivity].
  - destruct (String.eqb (lower (challengerId ch0)) normalized) eqn:E1; simpl.
    + apply String.eqb_eq in E1. split.
      * destruct (challengerPaid ch0 && targetPaid ch0); discriminate.
      * intros H. destruct (H cid0 ch0) as [Hc _]; [left | congruence].
    + destruct (String.eqb (lower (targetId ch0)) normalized) eqn:E2; simpl.
      * apply String.eqb_eq in E2. split.
        -- destruct (challengerPaid ch0 && targetPaid ch0); discriminate.
        -- intros H. destruct (H cid0 ch0) as [_ Ht]; [left | congruence].
      * apply String.eqb_neq in E1, E2. rewrite IH. split.
        -- intros H cid ch Hin. apply elem_of_cons in Hin as [Heq|Hin].
           ++ injection Heq as -> ->. split; assumption.
           ++ apply (H cid ch Hin).
        -- intros H cid ch Hin. apply (H cid ch). right. exact Hin.
Qed.

Lemma findChallenge_found normalized entries cid :
  (∀ hasPlayed opponentName wagerUnits,
     findChallenge lower normalized entries
     = ChallengePaid cid hasPlayed opponentName wagerUnits →
     ∃ ch, (cid, ch) ∈ entries
           ∧ (lower (challengerId ch) = normalized ∨ lower (targetId ch) = normalized)
           ∧ challengerPaid ch = true ∧ targetPaid ch = true
           ∧ wagerUnits = wager ch
           ∧ hasPlayed
             = (if String.eqb (lower (challengerId ch)) normalized
                then bool_decide (challengerScore ch ≠ None)
                else bool_decide (targetScore ch ≠ None))
           ∧ opponentName
             = (if String.eqb (lower (challengerId ch)) normalized
                then targetName ch else challengerName ch))
  ∧ (findChallenge lower normalized entries = ChallengeUnpaid cid →
     ∃ ch, (cid, ch) ∈ entries
           ∧ (lower (challengerId ch) = normalized ∨ lower (targetId ch) = normalized)
           ∧ (challengerPaid ch = false ∨ targetPaid ch = false)).
Proof.
  induction entries as [|[cid0 ch0] rest IH]; simpl.
  - split; [intros ? ? ?|]; discriminate.
  - destruct (String.eqb (lower (challengerId ch0)) normalized
              || String.eqb (lower (targetId ch0)) normalized) eqn:Einv.
    + assert (Hinv : lower (challengerId ch0) = normalized
                     ∨ lower (targetId ch0) = normalized).
      { apply orb_true_iff in Einv as [E|E]; apply String.eqb_eq in E; auto. }
      destruct (challengerPaid ch0) eqn:P1, (targetPaid ch0) eqn:P2; simpl.
      * split; [|discriminate].
        intros hasPlayed opponentName wagerUnits [= <- <- <- <-].
        exists ch0. split; [left|]. repeat split; auto.
        destruct (String.eqb (lower (challengerId ch0)) normalized);
          [destruct (challengerScore ch0) | destruct (targetScore ch0)]; reflexivity.
      * split; [intros ? ? ?; discriminate|].
        intros [= <-]. exists ch0. split; [left | auto].
      * split; [intros ? ? ?; discriminate|].
        intros [= <-]. exists ch0. split; [left | auto].
      * split; [intros ? ? ?; discriminate|].
        intros [= <-]. exists ch0. split; [left | auto].
    + destruct IH as [IH1 IH2]. split.
      * intros hasPlayed opponentName wagerUnits H.
        destruct (IH1 _ _ _ H) as (ch & Hin & Hrest). exists ch. split; [right|]; auto.
      * intros H. destruct (IH2 H) as (ch & Hin & Hrest). exists ch. split; [right|]; auto.
Qed.

End CheckChallenge.

Lemma enumerates_map_to_list {V : Type} (m : gmap string V) : enumerates (map_to_list m) m.
Proof. intros k v. apply elem_of_map_to_list. Qed.

(** [X25] What the challenge status route reports. Let the entries be the
    live set in any order, and the request carry a user. The route answers
    "no challenge" exactly when no live challenge has the user as challenger
    or target, identifiers compared after lower-casing. When it answers with
    a paid challenge, that challenge is in the live set, involves the user,
    has both paid flags true, the reported wager is its wager, and
    [hasPlayed] tells whether the score on the user's side is recorded. When
    it answers with an unpaid challenge, that challenge is in the live set,
    involves the user, and at least one paid flag is false. *)
Theorem challenge_status_report (lower : string → string) s entries user uid :
  enumerates entries (pendingChallenges s) →
  Js.present user = Some uid →
  (checkChallenge lower user entries = NoActiveChallenge
   ↔ ∀ cid ch, pendingChallenges s !! cid = Some ch → ¬ involves lower uid ch)
  ∧ (∀ cid hasPlayed opponentName wagerUnits,
       checkChallenge lower user entries
       = ChallengePaid cid hasPlayed opponentName wagerUnits →
       ∃ ch, pendingChallenges s !! cid = Some ch
             ∧ involves lower uid ch
             ∧ challengerPaid ch = true ∧ targetPaid ch = true
             ∧ wagerUnits = wager ch
             ∧ hasPlayed
               = (if String.eqb (lower (challengerId ch)) (lower uid)
                  then bool_decide (challengerScore ch ≠ None)
                  else bool_decide (targetScore ch ≠ None)))
  ∧ (∀ cid,
       checkChallenge lower user entries = ChallengeUnpaid cid →
       ∃ ch, pendingChallenges s !! cid = Some ch
             ∧ involves lower uid ch
             ∧ (challengerPaid ch = false ∨ targetPaid ch = false)).
Proof.
  intros Henum Hu. unfold checkChallenge. rewrite Hu. split; [|split].
  - rewrite findChallenge_none. unfold involves. split.
    + intros H cid ch Hch. apply Henum in Hch. destruct (H cid ch Hch). tauto.
    + intros H cid ch Hin. apply Henum in Hin. specialize (H cid ch Hin). tauto.
  - intros cid hasPlayed opponentName wagerUnits H.
    destruct (proj1 (findChallenge_found lower (lower uid) entries cid) _ _ _ H)
      as (ch & Hin & Hinv & P1 & P2 & Hw & Hp & _).
    exists ch. apply Henum in Hin. repeat split; auto.
  - intros cid H.
    destruct (proj2 (findChallenge_found lower (lower uid) entries cid) H)
      as (ch & Hin & Hinv & Hp).
    exists ch. apply Henum in Hin. repeat split; auto.
Qed.

Lemma challenge_status_report_witness :
  checkChallenge asciiLower (Some "BOB")
    (map_to_list (pendingChallenges (after (bothPaid ++ [aliceScores 800]))))
  = ChallengePaid "challenge-1" false "Player" 200000
  ∧ ∃ ch, pendingChallenges (after (bothPaid ++ [aliceScores 800])) !! "challenge-1"
          = Some ch
          ∧ involves asciiLower "BOB" ch
          ∧ challengerPaid ch = true ∧ targetPaid ch = true
          ∧ 200000 = wager ch
          ∧ false
            = (if String.eqb (asciiLower (challengerId ch)) (asciiLower "BOB")
               then bool_decide (challengerScore ch ≠ None)
               else bool_decide (targetScore ch ≠ None)).
Proof.
  split; [vm_compute; reflexivity|].
  apply (proj1 (proj2 (challenge_status_report asciiLower
                         (after (bothPaid ++ [aliceScores 800]))
                         (map_to_list
                            (pendingChallenges (after (bothPaid ++ [aliceScores 800]))))
                         (Some "BOB") "BOB"
                         (enumerates_map_to_list _) eq_refl))
           "challenge-1" false "Player" 200000).
  vm_compute. reflexivity.
Defined.

(** [X26] Identifiers are matched in two ways. The challenge status route
    compares identifiers after lower-casing, the score route compares them
    exactly. For a user whose identifier equals a party's only up to case,
    the status route reports a challenge, but a score the user submits for
    that challenge is recorded on neither side. *)
Theorem status_and_score_match_differently
    (lower : string → string) s entries uid cid ch score :
  enumerates entries (pendingChallenges s) →
  pendingChallenges s !! cid = Some ch →
  uid ≠ "" →
  involves lower uid ch →
  uid ≠ challengerId ch → uid ≠ targetId ch →
  checkChallenge lower (Some uid) entries ≠ NoActiveChallenge
  ∧ recordScore uid score ch = ch.
Proof.
  intros Henum Hch Hne Hinv H1 H2. split; [|apply recordScore_stranger; assumption].
  unfold checkChallenge, Js.present.
  apply String.eqb_neq in Hne. rewrite Hne.
  rewrite findChallenge_none. intros H.
  apply Henum in Hch. destruct (H cid ch Hch) as [Ha Hb].
  destruct Hinv; contradiction.
Qed.

Lemma status_and_score_match_differently_witness :
  checkChallenge asciiLower (Some "Alice")
    (map_to_list (pendingChallenges (after bothPaid))) ≠ NoActiveChallenge
  ∧ recordScore "Alice" (Js.of_Z 900)
      {| id := "challenge-1"; challengerId := "alice"; challengerName := "Player";
         targetId := "bob"; targetName := "Bob"; wager := 200000;
         challengerPaid := true; targetPaid := true;
         challengerScore := None; targetScore := None; createdAt := 1;
         channelId := "town"; challengerTxHash := Some "0xA";
         targetTxHash := Some "0xB" |}
    = {| id := "challenge-1"; challengerId := "alice"; challengerName := "Player";
         targetId := "bob"; targetName := "Bob"; wager := 200000;
         challengerPaid := true; targetPaid := true;
         challengerScore := None; targetScore := None; createdAt := 1;
         channelId := "town"; challengerTxHash := Some "0xA";
         targetTxHash := Some "0xB" |}.
Proof.
  apply (status_and_score_match_differently asciiLower (after bothPaid)
           (map_to_list (pendingChallenges (after bothPaid))) "Alice" "challenge-1").
  - apply enumerates_map_to_list.
  - vm_compute. reflexivity.
  - discriminate.
  - left. vm_compute. reflexivity.
  - discriminate.
  - discriminate.
Defined.

(** ** The leaderboard *)

Section Leaderboard.

Let compare (a b : PlayerStats) : Js.number := JsArray.sub (bestScore b) (bestScore a).

Let finite (p : PlayerStats) : Prop := ∃ q, bestScore p = Js.Finite q.

Lemma Qlt_bool_iff x y : Js.Qlt_bool x y = true ↔ (x < y)%Q.
Proof.
  unfold Js.Qlt_bool. rewrite Qlt_alt. destruct (x ?= y)%Q; split; congruence.
Qed.

Lemma compare_finite x y :
  Js.gt (JsArray.sub (Js.Finite y) (Js.Finite x)) (Js.of_Z 0)
  = Js.gt (Js.Finite y) (Js.Finite x).
Proof.
  unfold Js.gt, Js.of_Z; simpl.
  apply Bool.eq_iff_eq_true. rewrite !Qlt_bool_iff.
  rewrite (Qred_correct (y - x)). rewrite (Qlt_minus_iff x y).
  unfold Qminus. reflexivity.
Qed.

Lemma ranksBefore_finite p q x y :
  bestScore p = Js.Finite x → bestScore q = Js.Finite y →
  ranksBefore p q ↔ (y <= x)%Q.
Proof.
  intros Hp Hq. unfold ranksBefore, Js.gt. rewrite Hp, Hq. simpl. split.
  - apply Qlt_bool_false.
  - intros Hle. apply not_true_is_false. rewrite Qlt_bool_iff.
    intros Hlt. apply (Qlt_not_le _ _ Hlt Hle).
Qed.

Lemma ranksBefore_trans p q r :
  finite p → finite q → finite r → ranksBefore p q → ranksBefore q r → ranksBefore p r.
Proof.
  intros [x Hx] [y Hy] [z Hz] H1 H2.
  rewrite (ranksBefore_finite p q x y Hx Hy) in H1.
  rewrite (ranksBefore_finite q r y z Hy Hz) in H2.
  rewrite (ranksBefore_finite p r x z Hx Hz).
  eapply Qle_trans; eassumption.
Qed.

Lemma insert_perm x l : JsArray.insert compare x l ≡ₚ x :: l.
Proof.
  induction l as [|y l IH]; cbn [JsArray.insert]; [reflexivity|].
  destruct (Js.gt (compare x y) (Js.of_Z 0)); [|reflexivity].
  rewrite IH. apply Permutation_swap.
Qed.

Lemma sort_perm l : JsArray.sort compare l ≡ₚ l.
Proof.
  induction l as [|x l IH]; simpl; [reflexivity|].
  rewrite insert_perm, IH. reflexivity.
Qed.

Lemma insert_sorted x l :
  finite x → Forall finite l →
  StronglySorted ranksBefore l → StronglySorted ranksBefore (JsArray.insert compare x l).
Proof.
  intros Hx Hfin Hs. induction l as [|y l IH]; cbn [JsArray.insert].
  - repeat constructor.
  - apply Forall_cons in Hfin as [Hy Hfin].
    apply StronglySorted_cons in Hs as [Hall Hs].
    destruct Hx as [a Ha]. destruct Hy as [b Hb].
    unfold compare at 1. rewrite Ha, Hb, compare_finite.
    destruct (Js.gt (Js.Finite b) (Js.Finite a)) eqn:E.
    + apply StronglySorted_cons. split; [|apply IH; eauto].
      rewrite (insert_perm x l). apply Forall_cons. split; [|exact Hall].
      unfold ranksBefore. rewrite Ha, Hb. apply lt_asym. exact E.
    + assert (Hxy : ranksBefore x y) by (unfold ranksBefore; rewrite Ha, Hb; exact E).
      apply StronglySorted_cons. split.
      * apply Forall_cons. split; [exact Hxy|].
        rewrite Forall_forall in Hall, Hfin |- *. intros r Hr.
        apply (ranksBefore_trans x y r); eauto.
        -- exists a; exact Ha.
        -- exists b; exact Hb.
      * apply StronglySorted_cons. split; assumption.
Qed.

Lemma sort_sorted l :
  Forall finite l → StronglySorted ranksBefore (JsArray.sort compare l).
Proof.
  induction l as [|x l IH]; intros Hfin; simpl; [constructor|].
  apply Forall_cons in Hfin as [Hx Hfin].
  apply insert_sorted; [exact Hx | | apply IH, Hfin].
  rewrite (sort_perm l). exact Hfin.
Qed.

(** The board of a list of records whose best scores are finite. *)
Lemma topPlayers_spec values :
  Forall finite values →
  let positive := List.filter (fun p => Js.gt (bestScore p) (Js.of_Z 0)) values in
  (length (topPlayers values) ≤ 10)%nat
  ∧ (∀ p, p ∈ topPlayers values → p ∈ values ∧ Js.gt (bestScore p) (Js.of_Z 0) = true)
  ∧ StronglySorted ranksBefore (topPlayers values)
  ∧ ∃ rest, topPlayers values ++ rest ≡ₚ positive
            ∧ (∀ p r, p ∈ topPlayers values → r ∈ rest → ranksBefore p r)
            ∧ (rest ≠ [] → length (topPlayers values) = 10%nat).
Proof.
  intros Hfin positive.
  set (sorted := JsArray.sort compare positive).
  assert (Htop : topPlayers values = take 10 sorted) by reflexivity.
  assert (Hperm : sorted ≡ₚ positive) by apply sort_perm.
  assert (Hpos : ∀ p, p ∈ positive → p ∈ values ∧ Js.gt (bestScore p) (Js.of_Z 0) = true).
  { intros p Hp. apply list_elem_of_In in Hp. apply filter_In in Hp as [Hin Hgt].
    split; [apply list_elem_of_In, Hin | exact Hgt]. }
  assert (Hfinp : Forall finite positive).
  { rewrite Forall_forall in Hfin |- *. intros p Hp. apply Hfin, (Hpos p Hp). }
  assert (Hsorted : StronglySorted ranksBefore (take 10 sorted ++ drop 10 sorted)).
  { rewrite take_drop. apply sort_sorted, Hfinp. }
  rewrite Htop. split; [rewrite length_take; lia|]. split; [|split].
  - intros p Hp. apply Hpos. rewrite <- Hperm. eapply subseteq_take, Hp.
  - eapply StronglySorted_app_1_l, Hsorted.
  - exists (drop 10 sorted). split; [rewrite take_drop; exact Hperm|]. split.
    + intros p r Hp Hr. eapply StronglySorted_app_1_elem_of; eauto.
    + intros Hne. rewrite length_take. apply Nat.min_l.
      destruct (Nat.le_gt_cases 10 (length sorted)) as [H|H]; [exact H|].
      exfalso. apply Hne, drop_ge. lia.
Qed.

End Leaderboard.

(** [X27] The leaderboard shows the ten best scores. For the records of a
    reachable state in any order, the board has at most 10 rows; every row
    is a record of the store with a best score above 0; the rows are in
    descending order of best score; the rows together with the records left
    out are exactly the records with a best score above 0, no left-out
    record has a greater best score than a row, and records are left out
    only when the board is full. The "no players yet" message is sent
    exactly when the store is empty: a store whose players all have best
    score 0 gets a board without rows. *)
Theorem leaderboard_shows_top_ten s values :
  reachable s →
  (∀ p, p ∈ values → ∃ u, playerStats s !! u = Some p) →
  let positive := List.filter (fun p => Js.gt (bestScore p) (Js.of_Z 0)) values in
  (length (topPlayers values) ≤ 10)%nat
  ∧ (∀ p, p ∈ topPlayers values → p ∈ values ∧ Js.gt (bestScore p) (Js.of_Z 0) = true)
  ∧ StronglySorted ranksBefore (topPlayers values)
  ∧ (∃ rest, topPlayers values ++ rest ≡ₚ positive
             ∧ (∀ p r, p ∈ topPlayers values → r ∈ rest → ranksBefore p r)
             ∧ (rest ≠ [] → length (topPlayers values) = 10%nat))
  ∧ (leaderboard values = NoPlayersYet ↔ values = [])
  ∧ (values ≠ [] → positive = [] → leaderboard values = Board []).
Proof.
  intros Hr Hvals positive.
  assert (Hfin : Forall (fun p => ∃ q, bestScore p = Js.Finite q) values).
  { rewrite Forall_forall. intros p Hp. destruct (Hvals p Hp) as [u Hu].
    destruct (reachable_stats_ok s u p Hr Hu) as ((q & Hq & _) & _). eauto. }
  destruct (topPlayers_spec values Hfin) as (H1 & H2 & H3 & H4).
  split; [exact H1|]. split; [exact H2|]. split; [exact H3|]. split; [exact H4|].
  split; [split|].
  - destruct values; [reflexivity | discriminate].
  - intros ->. reflexivity.
  - intros Hne Hnil. destruct values as [|v vs]; [congruence|].
    unfold leaderboard, topPlayers. fold positive. rewrite Hnil. reflexivity.
Qed.

Lemma leaderboard_shows_top_ten_witness :
  let s := after (bothPaid ++ [aliceScores 800; bobScores 650 prizeSent;
                               carolScores 0 None]) in
  let values := snd <$> map_to_list (playerStats s) in
  let positive := List.filter (fun p => Js.gt (bestScore p) (Js.of_Z 0)) values in
  (length (topPlayers values) ≤ 10)%nat
  ∧ (∀ p, p ∈ topPlayers values → p ∈ values ∧ Js.gt (bestScore p) (Js.of_Z 0) = true)
  ∧ StronglySorted ranksBefore (topPlayers values)
  ∧ (∃ rest, topPlayers values ++ rest ≡ₚ positive
             ∧ (∀ p r, p ∈ topPlayers values → r ∈ rest → ranksBefore p r)
             ∧ (rest ≠ [] → length (topPlayers values) = 10%nat))
  ∧ (leaderboard values = NoPlayersYet ↔ values = [])
  ∧ (values ≠ [] → positive = [] → leaderboard values = Board []).
Proof.
  apply (leaderboard_shows_top_ten
           (after (bothPaid ++ [aliceScores 800; bobScores 650 prizeSent;
                                carolScores 0 None]))).
  - apply reachable_after.
  - intros p Hp. apply list_elem_of_fmap in Hp as ([u st] & -> & Hin).
    exists u. apply elem_of_map_to_list. exact Hin.
Defined.

(** ** Disbursements *)

(** [X28] Who is ever paid, and how much. Every call of [sendPrize] the
    handlers make is one of two kinds: a refund of the challenge fee to the
    challenger of a live challenge, made by a form response of that
    challenge's target, or a prize of 396000 to the challenger or the target
    of a live challenge, made by a score submission that names that
    challenge, at most one per submission. The challenge command,
    transaction responses, payment requests and timers never disburse. *)
Theorem disbursements_are_refunds_or_prizes s e recipient amount :
  (recipient, amount) ∈ disbursements (trace e s) →
  (∃ user requestId components prizes ch,
     e = FormResponse user requestId components prizes
     ∧ pendingChallenges s !! Js.replace "challenge-response-" "" requestId = Some ch
     ∧ user = targetId ch
     ∧ recipient = challengerId ch ∧ amount = CHALLENGE_FEE)
  ∨ (∃ body now prize cid ch,
       e = ScoreSubmission body now prize
       ∧ Js.present (bodyChallengeId body) = Some cid
       ∧ pendingChallenges s !! cid = Some ch
       ∧ (recipient = challengerId ch ∨ recipient = targetId ch)
       ∧ amount = 396000
       ∧ disbursements (trace e s) = [(recipient, amount)]).
Proof.
  destruct e as [user channel mentions now | requestId txHash v
    | user requestId components prizes | user channel now | body now prize | k];
    unfold trace, handle.
  - unfold onSlashChallenge. destruct mentions as [|m ms]; [inversion 1|].
    destruct (String.eqb (mentionUserId m) user); inversion 1.
  - unfold onTransactionResponse.
    destruct (pendingPayments s !! requestId) as [p|]; [|inversion 1].
    destruct (Js.present txHash) as [h|]; [|inversion 1].
    destruct v as [[|]|errorMessage]; [|inversion 1|].
    + unfold transactionVerified.
      destruct (type p), (Js.present (challengeId p)) as [cid|]; try (inversion 1; fail);
        destruct (pendingChallenges s !! cid); inversion 1.
    + unfold transactionVerifyError. destruct (_ || _); inversion 1.
  - unfold onFormResponse.
    destruct (Js.startsWith _ _); [|inversion 1].
    destruct (pendingChallenges s !! Js.replace "challenge-response-" "" requestId)
      as [ch|] eqn:Hch; [|inversion 1].
    destruct (String.eqb user (targetId ch)) eqn:Hu; [|inversion 1].
    pose proof (formComponents_disbursements user
      (Js.replace "challenge-response-" "" requestId) ch prizes components 0%nat s) as Hd.
    destruct (formComponents _ _ _ _ _ _ _) as [s' effs]; simpl in *.
    rewrite Hd. intros Hin. apply list_elem_of_fmap in Hin as (c & [= -> ->] & _).
    left. exists user, requestId, components, prizes, ch.
    apply String.eqb_eq in Hu. auto.
  - unfold onRequestPayment.
    destruct (Js.present user), (Js.present channel); inversion 1.
  - intros Hin. right.
    destruct (snd (onScore body now prize s))
      as [| err | pid | sc isW w l ws ls p | sc' | sc' jp] eqn:Hreply.
    4: { destruct (onScore_complete _ _ _ _ _ _ _ _ _ _ _ Hreply)
           as (uid & cid & ch0 & cs & ts & s1 & Hc & Hch & Hcs & Hts & _ & Heq).
         rewrite Heq in Hin |- *. unfold settle in Hin |- *. simpl in Hin |- *.
         apply list_elem_of_singleton in Hin. injection Hin as -> ->.
         exists body, now, prize, cid, ch0.
         destruct (recordScore_ids uid sc ch0) as (Hi1 & Hi2 & _).
         repeat split; auto.
         unfold winnerId. rewrite Hi1, Hi2. destruct (Js.gt cs ts); auto. }
    all: exfalso; revert Hin Hreply; unfold onScore;
      destruct (Js.present (bodyUserId body)) as [uid|]; [|inversion 1];
      destruct (bodyScore body) as [score|]; [|inversion 1];
      destruct (bodyTimestamp body) as [timestamp|]; [|inversion 1];
      destruct (Js.lt score (Js.of_Z 0) || Js.gt score (Js.of_Z 100000)); [inversion 1|];
      destruct (Js.lt timestamp (Js.of_Z 0) || Js.gt timestamp (Js.of_Z (now + 60000)));
        [inversion 1|];
      destruct (Js.present (bodyChallengeId body)) as [cid|]; [|inversion 1];
      destruct (pendingChallenges _ !! cid) as [ch|]; [|inversion 1];
      unfold scoreChallenge;
      destruct (challengerScore _) as [cs|]; [|inversion 1];
      destruct (targetScore _) as [ts|]; [|inversion 1];
      unfold settle; simpl; discriminate.
  - unfold onTimer. destruct (timers s !! k) as [[pid|pid]|]; inversion 1.
Qed.

Lemma disbursements_are_refunds_or_prizes_witness :
  let s := after (bothPaid ++ [aliceScores 800]) in
  let e := bobScores 650 ExecuteThrows in
  (∃ user requestId components prizes ch,
     e = FormResponse user requestId components prizes
     ∧ pendingChallenges s !! Js.replace "challenge-response-" "" requestId = Some ch
     ∧ user = targetId ch
     ∧ "alice" = challengerId ch ∧ 396000 = CHALLENGE_FEE)
  ∨ (∃ body now prize cid ch,
       e = ScoreSubmission body now prize
       ∧ Js.present (bodyChallengeId body) = Some cid
       ∧ pendingChallenges s !! cid = Some ch
       ∧ ("alice" = challengerId ch ∨ "alice" = targetId ch)
       ∧ 396000 = 396000
       ∧ disbursements (trace e s) = [("alice", 396000)]).
Proof.
  apply (disbursements_are_refunds_or_prizes (after (bothPaid ++ [aliceScores 800]))
           (bobScores 650 ExecuteThrows) "alice" 396000).
  vm_compute. left.
Defined.

(** ** Totals over all players *)

Section Totals.

Variable f : PlayerStats → Z.








End Totals.

Section TotalsOfScore.



End TotalsOfScore.


